(** * my_little_malloc: the arena allocator of [mymalloc.c]

    A shallow embedding of [mymalloc.c] (LP64: [size_t] is 64 bits wide,
    [int] 32 bits, [double] 8 bytes) and the properties of its block
    layout, its first-fit search, its splitting, its coalescing and the
    checks done on free.

    The arena [global_arr] is a byte store addressed by offsets from its
    first byte.  Every access of a header field is bounds-checked by the
    model: an access through the null pointer or outside the arena ends the
    run with a [Crash] (in C it is undefined behaviour).  Loops take fuel;
    a run that uses it up ends in [Timeout]. *)

From Stdlib Require Import ZArith Lia List Bool.
From stdpp Require Import base option gmap.

Local Open Scope Z_scope.

(** ** Platform constants and macros *)

Definition MEMLENGTH : Z := 4096.
Definition sizeof_double : Z := 8.
(** [meta] is [{ size_t size; int in_use; }]: [size] at byte 0, [in_use] at
    byte 8, four bytes of padding. *)
Definition sizeof_meta : Z := 16.
Definition size_field : Z := 0.
Definition in_use_field : Z := 8.

(** Arithmetic on [size_t] wraps modulo 2^64. *)
Definition wrap (x : Z) : Z := x mod 2 ^ 64.

(** [#define ALIGNMENT(x) (((x) + 7) & ~7)] on a [size_t] operand. *)
Definition ALIGNMENT (x : Z) : Z := Z.land (wrap (x + 7)) (wrap (Z.lnot 7)).

(** [#define META_SIZE ALIGNMENT(sizeof(meta))] *)
Definition META_SIZE : Z := ALIGNMENT sizeof_meta.

(** [MEMLENGTH * sizeof(double)], the byte length of [global_arr]. *)
Definition ARENA_BYTES : Z := MEMLENGTH * sizeof_double.

(** [enum mem_status] *)
Definition FREE : Z := 0.
Definition IN_USE : Z := 1.

(** ** Memory *)

(** The bytes of [global_arr], keyed by their offset; a byte that is not in
    the map holds 0, as the static array does before it is written. *)
Abbreviation mem := (gmap Z Z).

(** [static double global_arr[MEMLENGTH]] before any call. *)
Definition fresh_arena : mem := ∅.

(** The byte at offset [a], as a number below 256. *)
Definition byte_at (m : mem) (a : Z) : Z := default 0 (m !! a) mod 256.

(** Little-endian load and store of [n] bytes at offset [a]. *)
Fixpoint load_le (m : mem) (a : Z) (n : nat) : Z :=
  match n with
  | O => 0
  | S k => byte_at m a + 256 * load_le m (a + 1) k
  end.

Fixpoint store_le (m : mem) (a : Z) (n : nat) (v : Z) : mem :=
  match n with
  | O => m
  | S k => store_le (<[a := v mod 256]> m) (a + 1) k (v / 256)
  end.

(** A [meta *]: the null pointer, or [(char * )global_arr + off].  Offsets
    are unbounded integers: a pointer moved outside the array keeps its
    offset, can be compared, and ends the run when it is read or written
    through.  Pointer arithmetic does not wrap at 2^64 here: the model
    follows the code on every array whose size fields keep the walk below
    2^64 (in C, moving a pointer further is undefined). *)
Inductive pointer : Type :=
  | Null
  | Arr (off : Z).

Definition pointer_eqb (p q : pointer) : bool :=
  match p, q with
  | Null, Null => true
  | Arr a, Arr b => a =? b
  | _, _ => false
  end.

(** [(char * )p + d].  The program never moves the null pointer: every path
    reads through the pointer first, which ends the run. *)
Definition pointer_add (p : pointer) (d : Z) : pointer :=
  match p with
  | Null => Null
  | Arr o => Arr (o + d)
  end.

(** [(char * )p < (char * )global_arr + MEMLENGTH * sizeof(double)]; the null
    pointer is address 0, below the array. *)
Definition below_arena_end (p : pointer) : bool :=
  match p with
  | Null => true
  | Arr o => o <? ARENA_BYTES
  end.

(** ** Runs: state, crashes and fuel *)

Inductive fault : Type :=
  | NullDeref
  | OutOfBounds (off : Z).   (* offset of the header that was accessed *)

Inductive result (A : Type) : Type :=
  | Ret (a : A) (m : mem)
  | Crash (f : fault)
  | Timeout.
Arguments Ret {A} a m.
Arguments Crash {A} f.
Arguments Timeout {A}.

Definition M (A : Type) : Type := mem -> result A.

Definition ret {A} (a : A) : M A := fun m => Ret a m.

Definition bind {A B} (c : M A) (k : A -> M B) : M B :=
  fun m => match c m with
           | Ret a m' => k a m'
           | Crash f => Crash f
           | Timeout => Timeout
           end.

Notation "x <- c ;; k" := (bind c (fun x => k))
  (at level 100, c at next level, right associativity).
Notation "c ;;; k" := (bind c (fun _ => k))
  (at level 100, right associativity).

(** Is the [width]-byte field at [field] of the header at [p] inside the
    array? *)
Definition in_arena (o field : Z) (width : nat) : bool :=
  (0 <=? o + field) && (o + field + Z.of_nat width <=? ARENA_BYTES).

Definition load (p : pointer) (field : Z) (width : nat) : M Z :=
  fun m => match p with
           | Null => Crash NullDeref
           | Arr o => if in_arena o field width
                      then Ret (load_le m (o + field) width) m
                      else Crash (OutOfBounds o)
           end.

Definition store (p : pointer) (field : Z) (width : nat) (v : Z) : M unit :=
  fun m => match p with
           | Null => Crash NullDeref
           | Arr o => if in_arena o field width
                      then Ret tt (store_le m (o + field) width v)
                      else Crash (OutOfBounds o)
           end.

(** ** Header helpers *)

(** [size_t getBlockSize(meta *head) { return head->size; }] *)
Definition getBlockSize (head : pointer) : M Z := load head size_field 8.

(** [void setBlockSize(meta *head, size_t size) { head->size = size; }] *)
Definition setBlockSize (head : pointer) (size : Z) : M unit :=
  store head size_field 8 size.

(** [int isBlockInUse(meta *head) { return head->in_use == IN_USE; }] *)
Definition isBlockInUse (head : pointer) : M Z :=
  v <- load head in_use_field 4 ;;
  ret (if v =? IN_USE then 1 else 0).

(** [void setBlockFree(meta *head) { head->in_use = FREE; }] *)
Definition setBlockFree (head : pointer) : M unit :=
  store head in_use_field 4 FREE.

(** [void setBlockInUse(meta *head) { head->in_use = IN_USE; }] *)
Definition setBlockInUse (head : pointer) : M unit :=
  store head in_use_field 4 IN_USE.

(** [getPayload]: [(char * )head + META_SIZE]. *)
Definition getPayload (head : pointer) : pointer := pointer_add head META_SIZE.

(** [getNextBlock]: [(char * )head + META_SIZE + getBlockSize(head)]. *)
Definition getNextBlock (head : pointer) : M pointer :=
  s <- getBlockSize head ;;
  ret (pointer_add head (META_SIZE + s)).

(** [getBlockStatus]: 1 when the first header is free and its size field
    equals the byte length of the whole array. *)
Definition getBlockStatus : M Z :=
  let current := Arr 0 in
  u <- isBlockInUse current ;;
  let free_blocks := negb (u =? IN_USE) in
  block_size <- getBlockSize current ;;
  ret (if (block_size =? ARENA_BYTES) && free_blocks then 1 else 0).

(** ** coalesce *)

(** The [while] loop of [coalesce]; [coalesced] is the flag it returns. *)
Fixpoint coalesce_loop (fuel : nat) (current : pointer) (coalesced : Z) : M Z :=
  match fuel with
  | O => fun _ => Timeout
  | S fuel' =>
    if below_arena_end current then
      next <- getNextBlock current ;;
      if negb (below_arena_end next) then ret coalesced
      else
        cu <- isBlockInUse current ;;
        if cu =? 0 then
          nu <- isBlockInUse next ;;
          if nu =? 0 then
            s1 <- getBlockSize current ;;
            s2 <- getBlockSize next ;;
            setBlockSize current (wrap (wrap (s1 + META_SIZE) + s2)) ;;;
            coalesce_loop fuel' current 1
          else coalesce_loop fuel' next coalesced
        else coalesce_loop fuel' next coalesced
    else ret coalesced
  end.

Definition coalesce (fuel : nat) (head : pointer) : M Z :=
  coalesce_loop fuel head 0.

(** ** mymalloc *)

(** What the call prints on [stderr]. *)
Inductive diagnostic : Type :=
  | InvalidSize
  | OutOfMemory
  | NullPointer
  | DoubleFree
  | PointerNotFound.

(** The body of the branch taken at a fitting free block. *)
Definition take_block (current : pointer) (curr_size total_size : Z) : M pointer :=
  let remaining_size := wrap (curr_size - total_size) in
  setBlockInUse current ;;;
  setBlockSize current total_size ;;;
  (if remaining_size >=? META_SIZE + 8 then
     next_block <- getNextBlock current ;;
     setBlockSize next_block remaining_size ;;;
     setBlockFree next_block
   else if remaining_size >? 0 then
     setBlockSize current curr_size
   else ret tt) ;;;
  ret (getPayload current).

(** The search loop of [mymalloc]. *)
Fixpoint malloc_loop (fuel : nat) (total_size : Z) (current : pointer)
    (current_byte : Z) : M (pointer * option diagnostic) :=
  match fuel with
  | O => fun _ => Timeout
  | S fuel' =>
    if current_byte <? ARENA_BYTES then
      curr_size <- getBlockSize current ;;
      u <- isBlockInUse current ;;
      if negb (u =? IN_USE) && (curr_size >=? total_size) then
        p <- take_block current curr_size total_size ;;
        ret (p, None)
      else
        s <- getBlockSize current ;;
        next <- getNextBlock current ;;
        malloc_loop fuel' total_size next (wrap (current_byte + s))
    else ret (Null, Some OutOfMemory)
  end.

(** The first-call initialisation of [mymalloc]. *)
Definition lazy_init (current : pointer) : M unit :=
  let block_size := ARENA_BYTES in
  s <- getBlockSize current ;;
  if s =? 0 then
    st <- getBlockStatus ;;
    if negb (st =? 0) then
      setBlockSize current (block_size - META_SIZE) ;;;
      setBlockFree current
    else ret tt
  else ret tt.

(** [void *mymalloc(size_t size, char *filename, int line)] *)
Definition mymalloc (fuel : nat) (size : Z) : M (pointer * option diagnostic) :=
  if (size <=? 0) || (size >? ARENA_BYTES - META_SIZE) then
    ret (Null, Some InvalidSize)
  else
    let current := Arr 0 in
    let size := ALIGNMENT size in
    let total_size := wrap (META_SIZE + size) in
    lazy_init current ;;;
    malloc_loop fuel total_size current 0.

(** ** myfree *)

(** The walk of [myfree]; [found] is its flag. *)
Fixpoint free_loop (fuel : nat) (ptr : pointer) (current prev : pointer)
    (found : Z) (current_byte : Z) : M (option diagnostic) :=
  match fuel with
  | O => fun _ => Timeout
  | S fuel' =>
    if current_byte <? ARENA_BYTES then
      let payload := getPayload current in
      let rest (found : Z) : M (option diagnostic) :=
        coalesce fuel' current ;;;
        c <- coalesce fuel' prev ;;
        let current :=
          if negb (c =? 0) && negb (pointer_eqb prev Null) then prev else current in
        s <- getBlockSize current ;;
        next <- getNextBlock current ;;
        free_loop fuel' ptr next current found (wrap (current_byte + s)) in
      if pointer_eqb payload ptr then
        u <- isBlockInUse current ;;
        if negb (u =? IN_USE) then ret (Some DoubleFree)
        else setBlockFree current ;;; rest 1
      else rest found
    else ret (if negb (found =? 1) then Some PointerNotFound else None)
  end.

(** [void myfree(void *ptr, char *filename, int line)] *)
Definition myfree (fuel : nat) (ptr : pointer) : M (option diagnostic) :=
  if pointer_eqb ptr Null then ret (Some NullPointer)
  else free_loop fuel ptr (Arr 0) Null 0 0.

(** ** The arena as the code sees it *)

(** The two header fields at offset [o], read without a bounds check. *)
Definition size_at (m : mem) (o : Z) : Z := load_le m (o + size_field) 8.
Definition in_use_at (m : mem) (o : Z) : Z := load_le m (o + in_use_field) 4.

(** Both fields of the header at [o] lie inside the array. *)
Definition header_ok (o : Z) : bool :=
  in_arena o size_field 8 && in_arena o in_use_field 4.

(** [isBlockInUse(head) != IN_USE] *)
Definition is_free (m : mem) (o : Z) : bool := negb (in_use_at m o =? IN_USE).

(** Where [getNextBlock] lands from the header at [o]. *)
Definition next_of (m : mem) (o : Z) : Z := o + (META_SIZE + size_at m o).

(** [block_chain m pre o]: walking with [getNextBlock] from the first byte
    of the array, the headers at the offsets [pre] are passed, in this
    order, and the walk then stands at offset [o]. *)
Inductive block_chain (m : mem) : list Z -> Z -> Prop :=
  | chain_start : block_chain m [] 0
  | chain_next pre o :
      block_chain m pre o -> block_chain m (pre ++ [o]) (next_of m o).

(** The blocks met from offset [o] on, while the header starts inside the
    array. *)
Fixpoint blocks_from (fuel : nat) (m : mem) (o : Z) : list Z :=
  match fuel with
  | O => []
  | S fuel' =>
    if (0 <=? o) && (o <? ARENA_BYTES)
    then o :: blocks_from fuel' m (next_of m o)
    else []
  end.

(** A block takes at least [META_SIZE] bytes, so the array holds at most
    [ARENA_BYTES / META_SIZE] of them. *)
Definition arena_blocks (m : mem) : list Z :=
  blocks_from (Z.to_nat (ARENA_BYTES / META_SIZE)) m 0.

(** Sum of [META_SIZE + size] over the blocks walked from the array start. *)
Definition footprint_sum (m : mem) : Z :=
  fold_right (fun o acc => META_SIZE + size_at m o + acc) 0 (arena_blocks m).

(** The test [mymalloc] makes at each block: free, and the size field is at
    least [total_size]. *)
Definition fits (m : mem) (total_size : Z) (o : Z) : bool :=
  is_free m o && (size_at m o >=? total_size).

(** Writing a header by hand, to build arena states. *)
Definition put_header (o size in_use : Z) (m : mem) : mem :=
  store_le (store_le m (o + size_field) 8 size) (o + in_use_field) 4 in_use.

(** The arena as one free block, the state the first call of [mymalloc] is
    written to set up. *)
Definition formatted_arena : mem :=
  put_header 0 (ARENA_BYTES - META_SIZE) FREE fresh_arena.

(** ** Arena states and predicates of the statements *)

(** The value and the final array of a run that returned. *)
Definition returned {A} (r : result A) : option (A * mem) :=
  match r with
  | Ret a m => Some (a, m)
  | _ => None
  end.

(** Two free blocks that tile the array: payload 16 at offset 0, payload
    32720 at offset 32. *)
Definition two_free_blocks : mem :=
  put_header 32 32720 FREE (put_header 0 16 FREE fresh_arena).

(** A free block of payload 40 at offset 0, then a block in use up to the
    end of the array. *)
Definition snug_free_block : mem :=
  put_header 56 32696 IN_USE (put_header 0 40 FREE fresh_arena).

(** [full_from m total o]: from offset [o] the blocks tile the rest of the
    array exactly, and none of them passes the test of [mymalloc]. *)
Inductive full_from (m : mem) (total : Z) : Z -> Prop :=
  | full_end : full_from m total ARENA_BYTES
  | full_block o :
      0 <= o -> next_of m o <= ARENA_BYTES -> fits m total o = false ->
      full_from m total (next_of m o) -> full_from m total o.

(** The array as one block in use. *)
Definition one_block_in_use : mem :=
  put_header 0 (ARENA_BYTES - META_SIZE) IN_USE fresh_arena.

(** What is left of a call once the walk reaches [coalesce(prev)] with
    [prev == NULL]. *)
Definition after_null_coalesce {A B} (fuel : nat) (r : result A) : result B :=
  match r with
  | Ret _ _ => match fuel with O => Timeout | S _ => Crash NullDeref end
  | Crash f => Crash f
  | Timeout => Timeout
  end.

(** Three blocks that tile the array: two in use (payload 16 each), then a
    free one. *)
Definition used_used_free : mem :=
  put_header 64 32688 FREE (put_header 32 16 IN_USE (put_header 0 16 IN_USE fresh_arena)).

(** One merge: the header at [o] and the header right after it are inside
    the array, both blocks are free, and the size field at [o] grows by
    [META_SIZE] plus the size of the neighbour. *)
Inductive merge_step (m : mem) : mem -> Prop :=
  | merge_at o :
      header_ok o = true -> next_of m o < ARENA_BYTES ->
      header_ok (next_of m o) = true ->
      is_free m o = true -> is_free m (next_of m o) = true ->
      merge_step m
        (store_le m (o + size_field) 8
           (wrap (wrap (size_at m o + META_SIZE) + size_at m (next_of m o)))).

(** [n] merges in a row. *)
Inductive merges : nat -> mem -> mem -> Prop :=
  | merges_O m : merges O m m
  | merges_S n m m1 m2 : merge_step m m1 -> merges n m1 m2 -> merges (S n) m m2.

(** [settled m o]: from the block at [o] to the end of the array no block
    is free together with the block right after it. *)
Inductive settled (m : mem) : Z -> Prop :=
  | settled_past o : ARENA_BYTES <= o -> settled m o
  | settled_last o :
      in_arena o size_field 8 = true -> ARENA_BYTES <= next_of m o -> settled m o
  | settled_used o :
      header_ok o = true -> next_of m o < ARENA_BYTES ->
      is_free m o = false -> settled m (next_of m o) -> settled m o
  | settled_next_used o :
      header_ok o = true -> next_of m o < ARENA_BYTES ->
      is_free m o = true ->
      in_arena (next_of m o) in_use_field 4 = true ->
      is_free m (next_of m o) = false ->
      settled m (next_of m o) -> settled m o.

(** A block in use, then two free blocks. *)
Definition used_free_free : mem :=
  put_header 64 32688 FREE (put_header 32 16 FREE (put_header 0 16 IN_USE fresh_arena)).

(** Three free blocks. *)
Definition three_free_blocks : mem :=
  put_header 64 32688 FREE (put_header 32 16 FREE (put_header 0 16 FREE fresh_arena)).



(** [tiles n m o]: from offset [o] on, [n] blocks follow each other and
    end exactly at the end of the array. *)
Inductive tiles : nat -> mem -> Z -> Prop :=
  | tiles_end m : tiles O m ARENA_BYTES
  | tiles_block n m o :
      0 <= o -> next_of m o <= ARENA_BYTES -> tiles n m (next_of m o) ->
      tiles (S n) m o.

(** [first_fit_at m total s o]: walking from the block at [s], every block
    lies inside the array and the first one that passes the test of
    [mymalloc] is the block at [o]. *)
Inductive first_fit_at (m : mem) (total : Z) : Z -> Z -> Prop :=
  | fit_here s :
      0 <= s -> next_of m s <= ARENA_BYTES -> fits m total s = true ->
      first_fit_at m total s s
  | fit_later s o :
      0 <= s -> next_of m s <= ARENA_BYTES -> fits m total s = false ->
      first_fit_at m total (next_of m s) o -> first_fit_at m total s o.




(** * Properties *)

(** ** Bytes, loads and stores *)

Lemma byte_at_range (m : mem) a : 0 <= byte_at m a < 256.
Proof. unfold byte_at. apply Z.mod_pos_bound. lia. Qed.

Lemma load_le_range (m : mem) n : forall a, 0 <= load_le m a n < 256 ^ Z.of_nat n.
Proof.
  induction n as [|k IH]; intros a.
  - simpl. lia.
  - rewrite Nat2Z.inj_succ, Z.pow_succ_r by lia.
    cbn [load_le]. pose proof (byte_at_range m a). pose proof (IH (a + 1)). lia.
Qed.

Lemma size_at_range (m : mem) o : 0 <= size_at m o < 2 ^ 64.
Proof. unfold size_at. pose proof (load_le_range m 8 (o + size_field)). simpl in *. lia. Qed.

Lemma load_le_empty n : forall a, load_le fresh_arena a n = 0.
Proof.
  induction n as [|k IH]; intros a; cbn [load_le]; [reflexivity|].
  rewrite IH. unfold byte_at, fresh_arena. rewrite lookup_empty. reflexivity.
Qed.

Lemma byte_at_insert (m : mem) a b v :
  byte_at (<[a := v mod 256]> m) b = if decide (a = b) then v mod 256 else byte_at m b.
Proof.
  unfold byte_at. rewrite lookup_insert. destruct (decide (a = b)); simpl; [|reflexivity].
  apply Z.mod_mod. lia.
Qed.

Lemma byte_at_store_le (m : mem) n : forall a v b,
  b < a \/ a + Z.of_nat n <= b -> byte_at (store_le m a n v) b = byte_at m b.
Proof.
  revert m. induction n as [|k IH]; intros m a v b Hb; cbn [store_le]; [reflexivity|].
  rewrite IH by lia. rewrite byte_at_insert. destruct (decide (a = b)); [lia|reflexivity].
Qed.

Lemma load_le_ext (m1 m2 : mem) n : forall a,
  (forall b, a <= b < a + Z.of_nat n -> byte_at m1 b = byte_at m2 b) ->
  load_le m1 a n = load_le m2 a n.
Proof.
  induction n as [|k IH]; intros a H; cbn [load_le]; [reflexivity|].
  rewrite (H a) by lia. rewrite (IH (a + 1)); [reflexivity|].
  intros b Hb. apply H. lia.
Qed.

(** A store leaves every load from a disjoint range as it was. *)
Lemma load_store_other (m : mem) a n v b k :
  a + Z.of_nat n <= b \/ b + Z.of_nat k <= a ->
  load_le (store_le m a n v) b k = load_le m b k.
Proof.
  intros H. apply load_le_ext. intros c Hc. apply byte_at_store_le. lia.
Qed.

(** A load reads back what was stored, cut to the width of the field. *)
Lemma load_store_same n : forall (m : mem) a v,
  load_le (store_le m a n v) a n = v mod 256 ^ Z.of_nat n.
Proof.
  induction n as [|k IH]; intros m a v.
  - simpl. symmetry. apply Z.mod_1_r.
  - cbn [load_le store_le]. rewrite IH.
    rewrite byte_at_store_le by lia. rewrite byte_at_insert.
    destruct (decide (a = a)) as [_|]; [|congruence].
    rewrite Nat2Z.inj_succ, Z.pow_succ_r by lia.
    rewrite Z.rem_mul_r by lia. reflexivity.
Qed.

(** ** Constants and alignment *)

Lemma META_SIZE_eq : META_SIZE = 16.
Proof. reflexivity. Qed.

Lemma ARENA_BYTES_eq : ARENA_BYTES = 32768.
Proof. reflexivity. Qed.

Lemma wrap_small x : 0 <= x < 2 ^ 64 -> wrap x = x.
Proof. intros H. unfold wrap. apply Z.mod_small. exact H. Qed.

Lemma wrap_range x : 0 <= wrap x < 2 ^ 64.
Proof. unfold wrap. apply Z.mod_pos_bound. lia. Qed.

(** [ALIGNMENT] rounds up to the next multiple of 8. *)
Lemma ALIGNMENT_eq x : 0 <= x < 2 ^ 64 - 7 -> ALIGNMENT x = 8 * ((x + 7) / 8).
Proof.
  intros Hx. unfold ALIGNMENT. rewrite (wrap_small (x + 7)) by lia.
  change (wrap (Z.lnot 7)) with (Z.land (Z.ones 64) (Z.lnot (Z.ones 3))).
  rewrite Z.land_assoc, Z.land_ones by lia.
  rewrite Z.mod_small by lia.
  rewrite <- Z.ldiff_land, Z.ldiff_ones_r by lia.
  rewrite Z.shiftl_mul_pow2, Z.shiftr_div_pow2 by lia.
  change (2 ^ 3) with 8. lia.
Qed.

Lemma ALIGNMENT_bounds x :
  0 < x <= ARENA_BYTES - META_SIZE -> x <= ALIGNMENT x <= ARENA_BYTES - META_SIZE.
Proof.
  rewrite ARENA_BYTES_eq, META_SIZE_eq. intros Hx.
  rewrite ALIGNMENT_eq by lia.
  pose proof (Z.div_mod (x + 7) 8 ltac:(lia)) as Hd.
  pose proof (Z.mod_pos_bound (x + 7) 8 ltac:(lia)) as Hm.
  lia.
Qed.

(** ** One step of a run *)

Lemma Ret_inj {A} (a b : A) (m1 m2 : mem) : Ret a m1 = Ret b m2 -> a = b /\ m1 = m2.
Proof. intros H. inversion H. auto. Qed.

Lemma in_arena_spec o f w :
  in_arena o f w = true <-> 0 <= o + f /\ o + f + Z.of_nat w <= ARENA_BYTES.
Proof. unfold in_arena. rewrite andb_true_iff, Z.leb_le, Z.leb_le. reflexivity. Qed.

Lemma header_ok_spec o : header_ok o = true <-> 0 <= o /\ o + 12 <= ARENA_BYTES.
Proof.
  unfold header_ok. rewrite andb_true_iff, !in_arena_spec.
  unfold size_field, in_use_field. simpl Z.of_nat. lia.
Qed.

(** Deciding the tests of the code from facts in the context. *)
Ltac arena_lia :=
  rewrite ?ARENA_BYTES_eq, ?META_SIZE_eq in *;
  unfold size_field, in_use_field in *; simpl Z.of_nat in *; lia.

Ltac test_is b v :=
  replace b with v
    by (symmetry;
        first [ apply in_arena_spec | apply Z.ltb_lt | apply Z.ltb_ge
              | rewrite Z.geb_leb; apply Z.leb_gt ];
        arena_lia).

Lemma getBlockSize_Arr o m :
  getBlockSize (Arr o) m =
  if in_arena o size_field 8 then Ret (size_at m o) m else Crash (OutOfBounds o).
Proof. reflexivity. Qed.

Lemma isBlockInUse_Arr o m :
  isBlockInUse (Arr o) m =
  if in_arena o in_use_field 4
  then Ret (if in_use_at m o =? IN_USE then 1 else 0) m
  else Crash (OutOfBounds o).
Proof.
  unfold isBlockInUse, bind, load. destruct (in_arena o in_use_field 4); reflexivity.
Qed.

Lemma getNextBlock_Arr o m :
  getNextBlock (Arr o) m =
  if in_arena o size_field 8 then Ret (Arr (next_of m o)) m else Crash (OutOfBounds o).
Proof.
  unfold getNextBlock, bind. rewrite getBlockSize_Arr.
  destruct (in_arena o size_field 8); reflexivity.
Qed.

Lemma setBlockSize_Arr o v m :
  setBlockSize (Arr o) v m =
  if in_arena o size_field 8
  then Ret tt (store_le m (o + size_field) 8 v)
  else Crash (OutOfBounds o).
Proof. reflexivity. Qed.

Lemma set_in_use_Arr o v m :
  store (Arr o) in_use_field 4 v m =
  if in_arena o in_use_field 4
  then Ret tt (store_le m (o + in_use_field) 4 v)
  else Crash (OutOfBounds o).
Proof. reflexivity. Qed.

(** The flag [isBlockInUse] returns, compared as the code compares it. *)
Lemma in_use_flag_free m o :
  negb ((if in_use_at m o =? IN_USE then 1 else 0) =? IN_USE) = is_free m o.
Proof. unfold is_free. destruct (in_use_at m o =? IN_USE); reflexivity. Qed.

Lemma in_use_flag_zero m o :
  ((if in_use_at m o =? IN_USE then 1 else 0) =? 0) = is_free m o.
Proof. unfold is_free. destruct (in_use_at m o =? IN_USE); reflexivity. Qed.

(** ** The initialisation on the first call *)

(** The guard asks for a size field that is 0 and, in [getBlockStatus], for
    the same field to equal [ARENA_BYTES]: the branch is never taken. *)
Lemma lazy_init_noop m : lazy_init (Arr 0) m = Ret tt m.
Proof.
  unfold lazy_init, bind. rewrite getBlockSize_Arr.
  change (in_arena 0 size_field 8) with true. cbv iota.
  destruct (size_at m 0 =? 0) eqn:E; [|reflexivity].
  apply Z.eqb_eq in E.
  unfold getBlockStatus, bind. rewrite isBlockInUse_Arr.
  change (in_arena 0 in_use_field 4) with true. cbv iota.
  rewrite getBlockSize_Arr. change (in_arena 0 size_field 8) with true. cbv iota.
  rewrite E. reflexivity.
Qed.

(** ** The search loop, one iteration at a time *)

Lemma malloc_loop_step fuel total o cb m :
  malloc_loop (S fuel) total (Arr o) cb m =
  if cb <? ARENA_BYTES then
    if in_arena o size_field 8 then
      if in_arena o in_use_field 4 then
        if is_free m o && (size_at m o >=? total) then
          match take_block (Arr o) (size_at m o) total m with
          | Ret p m' => Ret (p, None) m'
          | Crash f => Crash f
          | Timeout => Timeout
          end
        else malloc_loop fuel total (Arr (next_of m o)) (wrap (cb + size_at m o)) m
      else Crash (OutOfBounds o)
    else Crash (OutOfBounds o)
  else Ret (Null, Some OutOfMemory) m.
Proof.
  cbn [malloc_loop]. destruct (cb <? ARENA_BYTES); [|reflexivity].
  unfold bind. rewrite getBlockSize_Arr.
  destruct (in_arena o size_field 8) eqn:E1; [|reflexivity].
  rewrite isBlockInUse_Arr.
  destruct (in_arena o in_use_field 4) eqn:E2; [|reflexivity].
  rewrite in_use_flag_free.
  destruct (is_free m o && (size_at m o >=? total)); [reflexivity|].
  rewrite getBlockSize_Arr, E1, getNextBlock_Arr, E1. reflexivity.
Qed.

Lemma mymalloc_valid fuel size m :
  0 < size <= ARENA_BYTES - META_SIZE ->
  mymalloc fuel size m =
  malloc_loop fuel (wrap (META_SIZE + ALIGNMENT size)) (Arr 0) 0 m.
Proof.
  intros Hs. unfold mymalloc.
  replace ((size <=? 0) || (size >? ARENA_BYTES - META_SIZE)) with false
    by (symmetry; apply orb_false_iff; split; [apply Z.leb_gt|rewrite Z.gtb_ltb; apply Z.ltb_ge]; lia).
  unfold bind. rewrite lazy_init_noop. reflexivity.
Qed.

Lemma total_size_bounds size :
  0 < size <= ARENA_BYTES - META_SIZE ->
  wrap (META_SIZE + ALIGNMENT size) = META_SIZE + ALIGNMENT size /\
  META_SIZE + size <= META_SIZE + ALIGNMENT size <= ARENA_BYTES.
Proof.
  intros Hs. pose proof (ALIGNMENT_bounds size Hs) as Ha.
  rewrite ARENA_BYTES_eq, META_SIZE_eq in *.
  split; [apply wrap_small|]; lia.
Qed.

(** ** The first call on the untouched array *)

(** On the all-zero array every header read is 0: no block fits, the byte
    counter stays 0, and the walk steps 16 bytes at a time off the array. *)
Lemma malloc_loop_fresh total n : forall fuel k,
  0 < total -> 0 <= k -> k + Z.of_nat n = ARENA_BYTES / META_SIZE ->
  (n < fuel)%nat ->
  malloc_loop fuel total (Arr (META_SIZE * k)) 0 fresh_arena
  = Crash (OutOfBounds ARENA_BYTES).
Proof.
  change (ARENA_BYTES / META_SIZE) with 2048.
  induction n as [|n IH]; intros fuel k Ht Hk Hn Hf;
    (destruct fuel as [|fuel]; [lia|]); rewrite malloc_loop_step.
  - replace k with 2048 by lia. reflexivity.
  - change (0 <? ARENA_BYTES) with true. cbv iota.
    test_is (in_arena (META_SIZE * k) size_field 8) true.
    test_is (in_arena (META_SIZE * k) in_use_field 4) true.
    unfold next_of, size_at. rewrite load_le_empty.
    test_is (0 >=? total) false.
    rewrite andb_false_r.
    replace (META_SIZE * k + (META_SIZE + 0)) with (META_SIZE * (k + 1))
      by (rewrite META_SIZE_eq; lia).
    change (wrap (0 + 0)) with 0.
    apply IH; lia.
Qed.

(** C2 (the code departs from the claim).  For every valid size the first
    [mymalloc] call on the untouched array formats nothing: the guard of
    the initialisation cannot hold, the search finds only zero headers and
    the call ends reading the header at offset [ARENA_BYTES], past the
    array, instead of returning a pointer. *)
Theorem first_call_walks_off_the_arena fuel size :
  0 < size <= ARENA_BYTES - META_SIZE ->
  (Z.to_nat (ARENA_BYTES / META_SIZE) < fuel)%nat ->
  mymalloc fuel size fresh_arena = Crash (OutOfBounds ARENA_BYTES).
Proof.
  intros Hs Hf. rewrite mymalloc_valid by exact Hs.
  destruct (total_size_bounds size Hs) as [-> Hb].
  replace (Arr 0) with (Arr (META_SIZE * 0)) by reflexivity.
  apply (malloc_loop_fresh _ (Z.to_nat (ARENA_BYTES / META_SIZE))).
  - rewrite META_SIZE_eq in *. lia.
  - lia.
  - reflexivity.
  - exact Hf.
Qed.

Lemma first_call_walks_off_the_arena_witness :
  mymalloc 4096 16 fresh_arena = Crash (OutOfBounds ARENA_BYTES).
Proof.
  apply (first_call_walks_off_the_arena 4096 16).
  - rewrite ARENA_BYTES_eq, META_SIZE_eq. lia.
  - vm_compute. lia.
Defined.



(** ** Taking a block *)

Lemma take_block_Arr o cs total m :
  header_ok o = true -> 0 <= total <= cs -> cs < 2 ^ 64 ->
  take_block (Arr o) cs total m =
  let m1 := store_le (store_le m (o + in_use_field) 4 IN_USE) (o + size_field) 8 total in
  if cs - total >=? META_SIZE + 8 then
    let n := o + (META_SIZE + total) in
    if in_arena n size_field 8 && in_arena n in_use_field 4 then
      Ret (Arr (o + META_SIZE))
          (store_le (store_le m1 (n + size_field) 8 (cs - total)) (n + in_use_field) 4 FREE)
    else Crash (OutOfBounds n)
  else if cs - total >? 0 then
    Ret (Arr (o + META_SIZE)) (store_le m1 (o + size_field) 8 cs)
  else Ret (Arr (o + META_SIZE)) m1.
Proof.
  intros Ho Ht Hc. apply andb_true_iff in Ho as [Ho1 Ho2].
  unfold take_block, bind, setBlockInUse, setBlockFree.
  rewrite set_in_use_Arr, Ho2, setBlockSize_Arr, Ho1.
  rewrite (wrap_small (cs - total)) by lia. cbv zeta.
  destruct (cs - total >=? META_SIZE + 8).
  - rewrite getNextBlock_Arr, Ho1. unfold next_of.
    assert (Hsz : size_at (store_le (store_le m (o + in_use_field) 4 IN_USE)
                             (o + size_field) 8 total) o = total).
    { unfold size_at. rewrite load_store_same. change (256 ^ Z.of_nat 8) with (2 ^ 64).
      apply Z.mod_small. lia. }
    rewrite Hsz, setBlockSize_Arr.
    destruct (in_arena (o + (META_SIZE + total)) size_field 8); [|reflexivity].
    cbv iota beta. rewrite set_in_use_Arr.
    destruct (in_arena (o + (META_SIZE + total)) in_use_field 4); reflexivity.
  - destruct (cs - total >? 0); [|reflexivity].
    rewrite setBlockSize_Arr, Ho1. reflexivity.
Qed.

(** ** What a returning search has seen *)

(** The search writes nothing before it takes a block; when it returns a
    pointer, every block it passed failed the test and the block it took
    passed it. *)
Lemma malloc_loop_ret total fuel : forall o cb m pre p d m',
  block_chain m pre o ->
  Forall (fun o' => fits m total o' = false) pre ->
  malloc_loop fuel total (Arr o) cb m = Ret (p, d) m' ->
  (d = Some OutOfMemory /\ p = Null /\ m' = m) \/
  (d = None /\ exists pre' c,
     block_chain m pre' c /\ Forall (fun o' => fits m total o' = false) pre' /\
     header_ok c = true /\ fits m total c = true /\
     take_block (Arr c) (size_at m c) total m = Ret p m').
Proof.
  induction fuel as [|fuel IH]; intros o cb m pre p d m' Hc Hpre H; [discriminate|].
  rewrite malloc_loop_step in H.
  destruct (cb <? ARENA_BYTES); [|left; injection H as <- <- <-; auto].
  destruct (in_arena o size_field 8) eqn:E1; [|discriminate].
  destruct (in_arena o in_use_field 4) eqn:E2; [|discriminate].
  fold (fits m total o) in H.
  destruct (fits m total o) eqn:Ef.
  - right. destruct (take_block (Arr o) (size_at m o) total m) as [q mq| |] eqn:Et;
      try discriminate.
    injection H as <- <- <-. split; [reflexivity|].
    exists pre, o. repeat split; auto.
    unfold header_ok. rewrite E1, E2. reflexivity.
  - apply (IH _ _ _ (pre ++ [o])) in H; auto.
    + constructor. exact Hc.
    + apply Forall_app. split; [exact Hpre|]. constructor; [exact Ef|constructor].
Qed.

Lemma mymalloc_ret fuel size m p m' :
  mymalloc fuel size m = Ret (p, None) m' ->
  0 < size <= ARENA_BYTES - META_SIZE /\
  exists pre c,
    block_chain m pre c /\
    Forall (fun o' => fits m (META_SIZE + ALIGNMENT size) o' = false) pre /\
    header_ok c = true /\ fits m (META_SIZE + ALIGNMENT size) c = true /\
    take_block (Arr c) (size_at m c) (META_SIZE + ALIGNMENT size) m = Ret p m'.
Proof.
  intros H.
  assert (Hs : 0 < size <= ARENA_BYTES - META_SIZE).
  { unfold mymalloc in H.
    destruct ((size <=? 0) || (size >? ARENA_BYTES - META_SIZE)) eqn:E; [discriminate|].
    apply orb_false_iff in E as [E1 E2].
    apply Z.leb_gt in E1. rewrite Z.gtb_ltb in E2. apply Z.ltb_ge in E2. lia. }
  split; [exact Hs|].
  rewrite mymalloc_valid in H by exact Hs.
  destruct (total_size_bounds size Hs) as [Hw _]. rewrite Hw in H.
  apply (malloc_loop_ret _ _ _ _ _ [] ) in H; [|constructor|constructor].
  destruct H as [[H _]|[_ H]]; [discriminate|exact H].
Qed.

Lemma mymalloc_ret_take fuel size m p m' :
  mymalloc fuel size m = Ret (p, None) m' ->
  exists pre c,
    block_chain m pre c /\
    Forall (fun o' => fits m (META_SIZE + ALIGNMENT size) o' = false) pre /\
    header_ok c = true /\ is_free m c = true /\
    0 <= META_SIZE + ALIGNMENT size <= size_at m c /\
    take_block (Arr c) (size_at m c) (META_SIZE + ALIGNMENT size) m = Ret p m'.
Proof.
  intros H. apply mymalloc_ret in H as (Hs & pre & c & Hc & Hpre & Hok & Hfit & Ht).
  exists pre, c. repeat split; auto.
  - unfold fits in Hfit. apply andb_true_iff in Hfit. tauto.
  - destruct (total_size_bounds size Hs) as [_ Hb]. rewrite META_SIZE_eq in *. lia.
  - unfold fits in Hfit. apply andb_true_iff in Hfit as [_ Hge].
    rewrite Z.geb_leb in Hge. apply Z.leb_le in Hge. exact Hge.
Qed.

(** ** First fit *)

(** A successful [mymalloc] returns the payload pointer of the first block,
    walking from the array start, that is free and whose size field is at
    least [META_SIZE] plus the rounded request; every block before it fails
    that test. *)
Lemma first_fit_on_payload_size fuel size m p m' :
  mymalloc fuel size m = Ret (p, None) m' ->
  exists pre o,
    block_chain m pre o /\ p = getPayload (Arr o) /\
    is_free m o = true /\ META_SIZE + ALIGNMENT size <= size_at m o /\
    Forall (fun o' => is_free m o' = false \/ size_at m o' < META_SIZE + ALIGNMENT size) pre.
Proof.
  intros H. apply mymalloc_ret_take in H as (pre & c & Hc & Hpre & Hok & Hfree & Hb & Ht).
  exists pre, c. repeat split; auto; try lia.
  - rewrite take_block_Arr in Ht; auto; [|apply size_at_range].
    cbv zeta in Ht. unfold getPayload, pointer_add.
    repeat match type of Ht with
           | (if ?b then _ else _) = _ => destruct b
           end; congruence.
  - eapply Forall_impl; [exact Hpre|]. intros o' Ho'. simpl in Ho'.
    unfold fits in Ho'. apply andb_false_iff in Ho' as [Ho'|Ho']; [left; exact Ho'|right].
    rewrite Z.geb_leb in Ho'. apply Z.leb_gt in Ho'. exact Ho'.
Qed.

(** ** Splitting *)

Lemma in_use_after_store (m : mem) o v :
  0 <= v < 2 ^ 32 -> in_use_at (store_le m (o + in_use_field) 4 v) o = v.
Proof.
  intros Hv. unfold in_use_at. rewrite load_store_same.
  change (256 ^ Z.of_nat 4) with (2 ^ 32). apply Z.mod_small. exact Hv.
Qed.

Lemma size_after_store (m : mem) o v :
  0 <= v < 2 ^ 64 -> size_at (store_le m (o + size_field) 8 v) o = v.
Proof.
  intros Hv. unfold size_at. rewrite load_store_same.
  change (256 ^ Z.of_nat 8) with (2 ^ 64). apply Z.mod_small. exact Hv.
Qed.

(** A store to a field of the header at [a] is not seen by the fields of a
    header that starts at least [META_SIZE] bytes away. *)
Lemma size_at_store_far (m : mem) a f n v o :
  0 <= f -> f + Z.of_nat n <= 12 -> (a + 12 <= o \/ o + 8 <= a + f) ->
  size_at (store_le m (a + f) n v) o = size_at m o.
Proof.
  intros Hf Hn H. unfold size_at, size_field. apply load_store_other. simpl Z.of_nat. lia.
Qed.

Lemma in_use_at_store_far (m : mem) a f n v o :
  0 <= f -> f + Z.of_nat n <= 12 ->
  (a + 12 <= o + 8 \/ o + 12 <= a + f \/ a + f + Z.of_nat n <= o + 8) ->
  in_use_at (store_le m (a + f) n v) o = in_use_at m o.
Proof.
  intros Hf Hn H. unfold in_use_at, in_use_field. apply load_store_other. simpl Z.of_nat. lia.
Qed.

(** What a successful [mymalloc] has done to the array. *)
Lemma mymalloc_effect fuel size m p m' :
  mymalloc fuel size m = Ret (p, None) m' ->
  exists o remaining,
    header_ok o = true /\
    p = getPayload (Arr o) /\ is_free m o = true /\
    remaining = size_at m o - (META_SIZE + ALIGNMENT size) /\ 0 <= remaining /\
    in_use_at m' o = IN_USE /\
    (META_SIZE + 8 <= remaining ->
       size_at m' o = META_SIZE + ALIGNMENT size /\
       size_at m' (next_of m' o) = remaining /\
       in_use_at m' (next_of m' o) = FREE /\
       forall a, a < o \/ o + 12 <= a ->
                 a < next_of m' o \/ next_of m' o + 12 <= a ->
                 byte_at m' a = byte_at m a) /\
    (remaining < META_SIZE + 8 ->
       size_at m' o = size_at m o /\
       forall a, a < o \/ o + 12 <= a -> byte_at m' a = byte_at m a).
Proof.
  intros H. apply mymalloc_ret_take in H as (pre & c & _ & _ & Hok & Hfree & Hb & Ht).
  pose proof (size_at_range m c) as Hr.
  rewrite take_block_Arr in Ht; auto; [|lia]. cbv zeta in Ht.
  set (total := META_SIZE + ALIGNMENT size) in *.
  set (cs := size_at m c) in *.
  exists c, (cs - total).
  assert (Hm : META_SIZE = 16) by reflexivity.
  unfold size_field, in_use_field in Ht.
  destruct (cs - total >=? META_SIZE + 8) eqn:Esplit.
  - rewrite Z.geb_leb in Esplit. apply Z.leb_le in Esplit.
    destruct (_ && _) eqn:En in Ht; [|discriminate].
    apply Ret_inj in Ht as [<- <-].
    assert (Hsz : size_at
              (store_le (store_le (store_le (store_le m (c + 8) 4 IN_USE) (c + 0) 8 total)
                 (c + (META_SIZE + total) + 0) 8 (cs - total))
                 (c + (META_SIZE + total) + 8) 4 FREE) c = total).
    { rewrite !size_at_store_far by (simpl Z.of_nat; lia).
      apply (size_after_store _ c). lia. }
    unfold next_of. rewrite Hsz.
    repeat split; try reflexivity; try lia; auto.
    + rewrite !in_use_at_store_far by (simpl Z.of_nat; lia).
      apply (in_use_after_store _ c). unfold IN_USE. lia.
    + rewrite size_at_store_far by (simpl Z.of_nat; lia).
      apply (size_after_store _ (c + (META_SIZE + total))). lia.
    + apply (in_use_after_store _ (c + (META_SIZE + total))). unfold FREE. lia.
    + intros a Ha1 Ha2. rewrite !byte_at_store_le by (simpl Z.of_nat; lia). reflexivity.
  - rewrite Z.geb_leb in Esplit. apply Z.leb_gt in Esplit.
    destruct (cs - total >? 0) eqn:Epos.
    + apply Ret_inj in Ht as [<- <-].
      repeat split; try reflexivity; try lia; auto.
      * rewrite !in_use_at_store_far by (simpl Z.of_nat; lia).
        apply (in_use_after_store _ c). unfold IN_USE. lia.
      * apply (size_after_store _ c). lia.
      * intros a Ha. rewrite !byte_at_store_le by (simpl Z.of_nat; lia). reflexivity.
    + rewrite Z.gtb_ltb in Epos. apply Z.ltb_ge in Epos.
      apply Ret_inj in Ht as [<- <-].
      repeat split; try reflexivity; try lia; auto.
      * rewrite in_use_at_store_far by (simpl Z.of_nat; lia).
        apply (in_use_after_store _ c). unfold IN_USE. lia.
      * rewrite (size_after_store _ c) by lia. lia.
      * intros a Ha. rewrite !byte_at_store_le by (simpl Z.of_nat; lia). reflexivity.
Qed.

(** ** The search that finds nothing *)

(** The counter [current_byte] adds up payload sizes only, so it is still
    below [ARENA_BYTES] when the walk stands at the end of the array. *)
Lemma malloc_loop_full m total o :
  full_from m total o ->
  forall fuel cb,
    0 <= cb -> cb < o \/ (o = 0 /\ cb = 0) ->
    ARENA_BYTES - o < META_SIZE * Z.of_nat fuel ->
    malloc_loop fuel total (Arr o) cb m = Crash (OutOfBounds ARENA_BYTES).
Proof.
  assert (Hm : META_SIZE = 16) by reflexivity.
  assert (Ha : ARENA_BYTES = 32768) by reflexivity.
  induction 1 as [|o Ho Hn Hfit Hfull IH]; intros fuel cb Hcb Hlt Hfuel.
  - destruct fuel as [|fuel]; [lia|]. rewrite malloc_loop_step.
    test_is (cb <? ARENA_BYTES) true.
    reflexivity.
  - pose proof (size_at_range m o) as Hr. unfold next_of in Hn.
    destruct fuel as [|fuel]; [lia|]. rewrite malloc_loop_step.
    test_is (cb <? ARENA_BYTES) true.
    test_is (in_arena o size_field 8) true.
    test_is (in_arena o in_use_field 4) true.
    fold (fits m total o). rewrite Hfit.
    rewrite wrap_small by lia.
    apply IH; unfold next_of; lia.
Qed.

(** C5 (the code departs from the claim).  On every array whose blocks tile
    it exactly and of which none fits the request, [mymalloc] does not
    report [OutOfMemory]: when the walk has passed the last block its byte
    counter is still short of [ARENA_BYTES] and the call reads the header
    at offset [ARENA_BYTES], outside the array. *)
Theorem exhausted_search_reads_past_the_arena fuel size m :
  0 < size <= ARENA_BYTES - META_SIZE ->
  full_from m (META_SIZE + ALIGNMENT size) 0 ->
  (Z.to_nat (ARENA_BYTES / META_SIZE) < fuel)%nat ->
  mymalloc fuel size m = Crash (OutOfBounds ARENA_BYTES).
Proof.
  intros Hs Hfull Hfuel. rewrite mymalloc_valid by exact Hs.
  destruct (total_size_bounds size Hs) as [-> _].
  apply malloc_loop_full; auto; try lia.
  change (ARENA_BYTES / META_SIZE) with 2048 in Hfuel.
  rewrite ARENA_BYTES_eq, META_SIZE_eq. lia.
Qed.

Lemma exhausted_search_reads_past_the_arena_witness :
  mymalloc 4096 8 one_block_in_use = Crash (OutOfBounds ARENA_BYTES).
Proof.
  apply (exhausted_search_reads_past_the_arena 4096 8 one_block_in_use).
  - rewrite ARENA_BYTES_eq, META_SIZE_eq. lia.
  - apply full_block.
    + lia.
    + vm_compute. congruence.
    + reflexivity.
    + change (next_of one_block_in_use 0) with ARENA_BYTES. apply full_end.
  - vm_compute. lia.
Defined.

(** ** coalesce, one iteration at a time *)

Lemma coalesce_loop_Null fuel c m : coalesce_loop (S fuel) Null c m = Crash NullDeref.
Proof. reflexivity. Qed.

Lemma coalesce_loop_step fuel o c m :
  coalesce_loop (S fuel) (Arr o) c m =
  if o <? ARENA_BYTES then
    if in_arena o size_field 8 then
      if next_of m o <? ARENA_BYTES then
        if in_arena o in_use_field 4 then
          if is_free m o then
            if in_arena (next_of m o) in_use_field 4 then
              if is_free m (next_of m o) then
                if in_arena (next_of m o) size_field 8 then
                  coalesce_loop fuel (Arr o) 1
                    (store_le m (o + size_field) 8
                       (wrap (wrap (size_at m o + META_SIZE) + size_at m (next_of m o))))
                else Crash (OutOfBounds (next_of m o))
              else coalesce_loop fuel (Arr (next_of m o)) c m
            else Crash (OutOfBounds (next_of m o))
          else coalesce_loop fuel (Arr (next_of m o)) c m
        else Crash (OutOfBounds o)
      else Ret c m
    else Crash (OutOfBounds o)
  else Ret c m.
Proof.
  cbn [coalesce_loop below_arena_end]. destruct (o <? ARENA_BYTES); [|reflexivity].
  unfold bind at 1. rewrite getNextBlock_Arr.
  destruct (in_arena o size_field 8) eqn:E1; [|reflexivity].
  cbn [below_arena_end]. destruct (next_of m o <? ARENA_BYTES); [|reflexivity].
  cbn [negb]. unfold bind at 1. rewrite isBlockInUse_Arr.
  destruct (in_arena o in_use_field 4); [|reflexivity].
  rewrite in_use_flag_zero. destruct (is_free m o); [|reflexivity].
  unfold bind at 1. rewrite isBlockInUse_Arr.
  destruct (in_arena (next_of m o) in_use_field 4); [|reflexivity].
  rewrite in_use_flag_zero. destruct (is_free m (next_of m o)); [|reflexivity].
  unfold bind. rewrite getBlockSize_Arr, E1, getBlockSize_Arr.
  destruct (in_arena (next_of m o) size_field 8) eqn:E2; [|reflexivity].
  rewrite setBlockSize_Arr, E1. reflexivity.
Qed.

(** ** myfree, its first iteration *)

Lemma free_loop_first fuel ptr m :
  free_loop (S fuel) ptr (Arr 0) Null 0 0 m =
  if pointer_eqb (getPayload (Arr 0)) ptr then
    if is_free m 0 then Ret (Some DoubleFree) m
    else after_null_coalesce fuel
           (coalesce fuel (Arr 0) (store_le m (0 + in_use_field) 4 FREE))
  else after_null_coalesce fuel (coalesce fuel (Arr 0) m).
Proof.
  cbn [free_loop]. change (0 <? ARENA_BYTES) with true. cbv iota.
  destruct (pointer_eqb (getPayload (Arr 0)) ptr).
  - unfold bind at 1. rewrite isBlockInUse_Arr.
    change (in_arena 0 in_use_field 4) with true. cbv iota.
    rewrite in_use_flag_free. destruct (is_free m 0); [reflexivity|].
    cbn [negb]. unfold bind at 1, setBlockFree. rewrite set_in_use_Arr.
    change (in_arena 0 in_use_field 4) with true. cbv iota.
    unfold bind at 1.
    destruct (coalesce fuel (Arr 0) _) as [c m1| |]; try reflexivity.
    destruct fuel; reflexivity.
  - unfold bind at 1.
    destruct (coalesce fuel (Arr 0) m) as [c m1| |]; try reflexivity.
    destruct fuel; reflexivity.
Qed.

(** A call of [myfree] returns only from its two early exits, and then the
    array is as it was. *)
Lemma myfree_ret_inv fuel ptr m d m' :
  myfree fuel ptr m = Ret d m' ->
  m' = m /\
  ((ptr = Null /\ d = Some NullPointer) \/
   (ptr = getPayload (Arr 0) /\ is_free m 0 = true /\ d = Some DoubleFree)).
Proof.
  unfold myfree. destruct ptr as [|a]; cbn [pointer_eqb].
  - intros H. apply Ret_inj in H as [<- <-]. auto.
  - destruct fuel as [|fuel]; [discriminate|]. rewrite free_loop_first.
    destruct (pointer_eqb (getPayload (Arr 0)) (Arr a)) eqn:Ep.
    + destruct (is_free m 0) eqn:Ef.
      * intros H. apply Ret_inj in H as [<- <-]. split; [reflexivity|right].
        repeat split; auto. unfold getPayload, pointer_add in *. cbn [pointer_eqb] in Ep.
        apply Z.eqb_eq in Ep. congruence.
      * destruct (coalesce fuel (Arr 0) _) as [c m1| |]; cbn [after_null_coalesce];
          destruct fuel; discriminate.
    + destruct (coalesce fuel (Arr 0) m) as [c m1| |]; cbn [after_null_coalesce];
        destruct fuel; discriminate.
Qed.

(** ** Calls of myfree that reach the walk *)

Lemma myfree_never_succeeds_after_malloc f1 f2 size m p m1 d m2 :
  mymalloc f1 size m = Ret (p, None) m1 -> myfree f2 p m1 = Ret d m2 -> False.
Proof.
  intros Hm Hf. apply mymalloc_effect in Hm as (o & r & Hok & Hp & _ & _ & _ & Hu & _).
  apply header_ok_spec in Hok.
  apply myfree_ret_inv in Hf as [_ [[Hn _]|(Hq & Hfree & _)]].
  - rewrite Hp in Hn. discriminate.
  - rewrite Hp in Hq. unfold getPayload, pointer_add in Hq.
    assert (o = 0) by (injection Hq; lia). subst o.
    unfold is_free in Hfree. rewrite Hu in Hfree. discriminate.
Qed.

Lemma myfree_past_first_block fuel ptr m :
  ptr <> Null -> ptr <> getPayload (Arr 0) ->
  myfree (S fuel) ptr m = after_null_coalesce fuel (coalesce fuel (Arr 0) m).
Proof.
  intros Hn Hp. unfold myfree.
  destruct ptr as [|a]; [congruence|]. cbn [pointer_eqb].
  rewrite free_loop_first.
  replace (pointer_eqb (getPayload (Arr 0)) (Arr a)) with false; [reflexivity|].
  symmetry. unfold getPayload, pointer_add in *. cbn [pointer_eqb].
  apply Z.eqb_neq. congruence.
Qed.


(** No call of [myfree] on a pointer that [mymalloc] has just returned comes
    back.  On the array formatted as one free block, [mymalloc(16)] returns
    the first payload and freeing it ends in the null dereference. *)
Lemma free_of_allocated_pointer_never_returns :
  (forall f1 f2 size m p m1,
     mymalloc f1 size m = Ret (p, None) m1 ->
     forall d m2, myfree f2 p m1 <> Ret d m2) /\
  exists m1,
    mymalloc 4096 16 formatted_arena = Ret (getPayload (Arr 0), None) m1 /\
    myfree 4096 (getPayload (Arr 0)) m1 = Crash NullDeref.
Proof.
  split.
  - intros f1 f2 size m p m1 Hm d m2 Hf.
    exact (myfree_never_succeeds_after_malloc _ _ _ _ _ _ _ _ Hm Hf).
  - eexists. split; [vm_compute; reflexivity|]. vm_compute. reflexivity.
Qed.

(** C9 (the code departs from the claim).  For a non-null pointer other
    than the first payload address, [myfree] never returns, so it never
    reports [PointerNotFound]; whenever the first [coalesce(current)]
    returns, the call ends in the null dereference of [coalesce(prev)].
    This is what happens for an interior pointer, on the formatted array
    and on the untouched one. *)
Theorem foreign_pointer_free_crashes :
  (forall fuel ptr m,
     ptr <> Null -> ptr <> getPayload (Arr 0) ->
     (forall d m', myfree fuel ptr m <> Ret d m') /\
     (forall c m1, coalesce (S fuel) (Arr 0) m = Ret c m1 ->
                   myfree (S (S fuel)) ptr m = Crash NullDeref)) /\
  myfree 4096 (Arr 24) formatted_arena = Crash NullDeref /\
  myfree 4096 (Arr 24) fresh_arena = Crash NullDeref.
Proof.
  split; [|split; vm_compute; reflexivity].
  intros fuel ptr m Hn Hp. split.
  - intros d m' H. apply myfree_ret_inv in H as [_ [[H _]|[H _]]]; congruence.
  - intros c m1 H. rewrite myfree_past_first_block by assumption.
    rewrite H. reflexivity.
Qed.

Lemma foreign_pointer_free_crashes_witness :
  (forall d m', myfree 8 (Arr 24) formatted_arena <> Ret d m') /\
  (forall c m1, coalesce 9 (Arr 0) formatted_arena = Ret c m1 ->
                myfree 10 (Arr 24) formatted_arena = Crash NullDeref).
Proof.
  apply (proj1 foreign_pointer_free_crashes 8%nat (Arr 24) formatted_arena);
    vm_compute; congruence.
Defined.

(** C10 (the code departs from the claim).  [coalesce(NULL)] reads the size
    field through the null pointer.  In [myfree] the first iteration of the
    walk calls [coalesce(prev)] with [prev == NULL]: for every non-null
    pointer, a call that gets past the double-free check of the first block
    and whose [coalesce(current)] returns makes that read.  So does the
    call [myfree(global_arr + 32)] on the untouched array. *)
Theorem null_prev_is_dereferenced :
  (forall fuel m, coalesce (S fuel) Null m = Crash NullDeref) /\
  (forall fuel ptr m c m1,
     ptr <> Null ->
     (ptr = getPayload (Arr 0) -> is_free m 0 = false) ->
     coalesce (S fuel) (Arr 0)
       (if pointer_eqb (getPayload (Arr 0)) ptr
        then store_le m (0 + in_use_field) 4 FREE else m) = Ret c m1 ->
     myfree (S (S fuel)) ptr m = Crash NullDeref) /\
  myfree 4096 (Arr 32) fresh_arena = Crash NullDeref.
Proof.
  split; [|split]; [reflexivity| |vm_compute; reflexivity].
  intros fuel ptr m c m1 Hn Hfirst H. unfold myfree.
  destruct ptr as [|a]; [congruence|]. cbn [pointer_eqb].
  rewrite free_loop_first.
  destruct (pointer_eqb (getPayload (Arr 0)) (Arr a)) eqn:Ep.
  - rewrite Hfirst, H; [reflexivity|].
    unfold getPayload, pointer_add in *. cbn [pointer_eqb] in Ep.
    apply Z.eqb_eq in Ep. congruence.
  - rewrite H. reflexivity.
Qed.

Lemma null_prev_is_dereferenced_witness :
  myfree 4096 (Arr 32) fresh_arena = Crash NullDeref.
Proof.
  eapply (proj1 (proj2 null_prev_is_dereferenced) 4094%nat (Arr 32) fresh_arena).
  - congruence.
  - vm_compute. congruence.
  - vm_compute. reflexivity.
Defined.

(** ** coalesce *)

Lemma header_ok_fields o :
  header_ok o = true <->
  in_arena o size_field 8 = true /\ in_arena o in_use_field 4 = true.
Proof. unfold header_ok. apply andb_true_iff. Qed.

Lemma coalesce_loop_settled m o :
  settled m o ->
  exists n, forall fuel c, (n <= fuel)%nat -> coalesce_loop fuel (Arr o) c m = Ret c m.
Proof.
  induction 1 as [o Ho|o Hs Hn|o Hok Hn Hf _ [n IH]|o Hok Hn Hf Hin Hf' _ [n IH]].
  - exists 1%nat. intros fuel c Hfuel. destruct fuel as [|fuel]; [lia|].
    rewrite coalesce_loop_step.
    test_is (o <? ARENA_BYTES) false.
    reflexivity.
  - exists 1%nat. intros fuel c Hfuel. destruct fuel as [|fuel]; [lia|].
    rewrite coalesce_loop_step, Hs.
    test_is (next_of m o <? ARENA_BYTES) false.
    destruct (o <? ARENA_BYTES); reflexivity.
  - exists (S n). intros fuel c Hfuel. destruct fuel as [|fuel]; [lia|].
    rewrite coalesce_loop_step.
    pose proof (proj1 (header_ok_spec o) Hok) as Hb.
    apply header_ok_fields in Hok as [-> ->].
    test_is (o <? ARENA_BYTES) true.
    test_is (next_of m o <? ARENA_BYTES) true.
    rewrite Hf. apply IH. lia.
  - exists (S n). intros fuel c Hfuel. destruct fuel as [|fuel]; [lia|].
    rewrite coalesce_loop_step.
    pose proof (proj1 (header_ok_spec o) Hok) as Hb.
    apply header_ok_fields in Hok as [-> ->].
    test_is (o <? ARENA_BYTES) true.
    test_is (next_of m o <? ARENA_BYTES) true.
    rewrite Hf, Hin, Hf'. apply IH. lia.
Qed.

Lemma coalesce_loop_ret fuel : forall p c0 m c m',
  coalesce_loop fuel p c0 m = Ret c m' ->
  exists n, merges n m m' /\ ((n = O /\ c = c0) \/ ((0 < n)%nat /\ c = 1)).
Proof.
  induction fuel as [|fuel IH]; intros p c0 m c m' H; [discriminate|].
  destruct p as [|o]; [discriminate|].
  rewrite coalesce_loop_step in H.
  assert (Hstop : Ret c0 m = Ret c m' ->
          exists n, merges n m m' /\ ((n = O /\ c = c0) \/ ((0 < n)%nat /\ c = 1))).
  { intros E. apply Ret_inj in E as [<- <-]. exists O. split; [constructor|auto]. }
  destruct (o <? ARENA_BYTES); [|auto].
  destruct (in_arena o size_field 8) eqn:E1; [|discriminate].
  destruct (next_of m o <? ARENA_BYTES) eqn:En; [|auto].
  destruct (in_arena o in_use_field 4) eqn:E2; [|discriminate].
  destruct (is_free m o) eqn:Ef; [|eapply IH; exact H].
  destruct (in_arena (next_of m o) in_use_field 4) eqn:E3; [|discriminate].
  destruct (is_free m (next_of m o)) eqn:Ef'; [|eapply IH; exact H].
  destruct (in_arena (next_of m o) size_field 8) eqn:E4; [|discriminate].
  apply IH in H as (n & Hn & Hc).
  exists (S n). split.
  - econstructor; [|exact Hn]. constructor; auto.
    + apply header_ok_fields; auto.
    + apply Z.ltb_lt. exact En.
    + apply header_ok_fields; auto.
  - right. split; [lia|]. destruct Hc as [[_ ->]|[_ ->]]; reflexivity.
Qed.

Lemma coalesce_loop_crash fuel : forall p c0 m a,
  coalesce_loop fuel p c0 m = Crash (OutOfBounds a) -> a < ARENA_BYTES.
Proof.
  induction fuel as [|fuel IH]; intros p c0 m a H; [discriminate|].
  destruct p as [|o]; [discriminate|].
  rewrite coalesce_loop_step in H.
  destruct (o <? ARENA_BYTES) eqn:Eo; [|discriminate].
  apply Z.ltb_lt in Eo.
  destruct (in_arena o size_field 8); [|injection H as <-; exact Eo].
  destruct (next_of m o <? ARENA_BYTES) eqn:En; [|discriminate].
  apply Z.ltb_lt in En.
  destruct (in_arena o in_use_field 4); [|injection H as <-; exact Eo].
  destruct (is_free m o); [|eapply IH; exact H].
  destruct (in_arena (next_of m o) in_use_field 4); [|injection H as <-; exact En].
  destruct (is_free m (next_of m o)); [|eapply IH; exact H].
  destruct (in_arena (next_of m o) size_field 8); [|injection H as <-; exact En].
  eapply IH; exact H.
Qed.

(** ** The footprints after a split *)

(** Whenever [mymalloc] splits the block it takes, the footprints of the two
    blocks it leaves add up to the footprint of the block it took plus
    [META_SIZE].  On the array formatted as one free block the sum is
    [ARENA_BYTES] before [mymalloc(16)] and [ARENA_BYTES + META_SIZE]
    after it. *)
Lemma split_adds_a_header_to_the_footprints :
  (forall fuel size m o m',
     mymalloc fuel size m = Ret (getPayload (Arr o), None) m' ->
     META_SIZE + 8 <= size_at m o - (META_SIZE + ALIGNMENT size) ->
     (META_SIZE + size_at m' o) + (META_SIZE + size_at m' (next_of m' o))
     = (META_SIZE + size_at m o) + META_SIZE) /\
  footprint_sum formatted_arena = ARENA_BYTES /\
  exists m',
    mymalloc 4096 16 formatted_arena = Ret (getPayload (Arr 0), None) m' /\
    arena_blocks m' = [0; 48] /\
    footprint_sum m' = ARENA_BYTES + META_SIZE.
Proof.
  split; [|split].
  - intros fuel size m o m' H Hge.
    apply mymalloc_effect in H
      as (o' & remaining & _ & Hp & _ & Hr & _ & _ & Hsplit & _).
    assert (o' = o) by (unfold getPayload, pointer_add in Hp; injection Hp; lia).
    subst o' remaining. destruct (Hsplit Hge) as (Hs1 & Hs2 & _).
    rewrite Hs2, Hs1. lia.
  - vm_compute. reflexivity.
  - eexists. split; [vm_compute; reflexivity|].
    split; vm_compute; reflexivity.
Qed.


(** * Further properties of the code *)

(** ** The alignment macro *)

Lemma ALIGNMENT_wrap_eq x : ALIGNMENT x = 8 * (wrap (x + 7) / 8).
Proof.
  unfold ALIGNMENT. pose proof (wrap_range (x + 7)) as Hy.
  change (wrap (Z.lnot 7)) with (Z.land (Z.ones 64) (Z.lnot (Z.ones 3))).
  rewrite Z.land_assoc, Z.land_ones by lia.
  rewrite Z.mod_small by lia.
  rewrite <- Z.ldiff_land, Z.ldiff_ones_r by lia.
  rewrite Z.shiftl_mul_pow2, Z.shiftr_div_pow2 by lia.
  change (2 ^ 3) with 8. lia.
Qed.

(** X1.  On a [size_t] operand below [2^64 - 7], [ALIGNMENT] gives the
    least multiple of 8 that is not below the operand, and aligning twice
    is aligning once; on the seven largest operands the addition wraps and
    the macro gives 0. *)
Theorem ALIGNMENT_rounds_up x :
  0 <= x < 2 ^ 64 ->
  (x < 2 ^ 64 - 7 ->
     x <= ALIGNMENT x < x + 8 /\ ALIGNMENT x mod 8 = 0 /\
     ALIGNMENT (ALIGNMENT x) = ALIGNMENT x) /\
  (2 ^ 64 - 7 <= x -> ALIGNMENT x = 0).
Proof.
  intros Hx. split.
  - intros Hlt. rewrite !ALIGNMENT_wrap_eq.
    rewrite (wrap_small (x + 7)) by lia.
    pose proof (Z.div_mod (x + 7) 8 ltac:(lia)) as Hd.
    pose proof (Z.mod_pos_bound (x + 7) 8 ltac:(lia)) as Hm.
    set (q := (x + 7) / 8) in *.
    repeat split; try lia.
    + rewrite Z.mul_comm. apply Z.mod_mul. lia.
    + rewrite (wrap_small (8 * q + 7)) by lia.
      replace (8 * q + 7) with (7 + q * 8) by lia.
      rewrite Z.div_add by lia. change (7 / 8) with 0. lia.
  - intros Hge. rewrite ALIGNMENT_wrap_eq.
    assert (Hw : wrap (x + 7) = x + 7 - 2 ^ 64).
    { unfold wrap. symmetry. apply (Z.mod_unique_pos _ _ 1); lia. }
    rewrite Hw, Z.div_small by lia. reflexivity.
Qed.

Lemma ALIGNMENT_rounds_up_witness :
  (13 < 2 ^ 64 - 7 ->
     13 <= ALIGNMENT 13 < 13 + 8 /\ ALIGNMENT 13 mod 8 = 0 /\
     ALIGNMENT (ALIGNMENT 13) = ALIGNMENT 13) /\
  (2 ^ 64 - 7 <= 13 -> ALIGNMENT 13 = 0).
Proof. apply (ALIGNMENT_rounds_up 13). lia. Defined.

(** ** The header helpers *)

(** X2.  For a header inside the array, a size written by [setBlockSize]
    is read back by [getBlockSize] and leaves the result of [isBlockInUse]
    as it was; a flag written by [setBlockInUse] or [setBlockFree] is read
    back by [isBlockInUse] as 1 or 0 and leaves [getBlockSize] as it was. *)
Theorem header_fields_round_trip o v m :
  header_ok o = true -> 0 <= v < 2 ^ 64 ->
  (exists m1, setBlockSize (Arr o) v m = Ret tt m1 /\
              getBlockSize (Arr o) m1 = Ret v m1 /\
              forall u, isBlockInUse (Arr o) m = Ret u m ->
                        isBlockInUse (Arr o) m1 = Ret u m1) /\
  (exists m2, setBlockInUse (Arr o) m = Ret tt m2 /\
              isBlockInUse (Arr o) m2 = Ret 1 m2 /\
              getBlockSize (Arr o) m2 = Ret (size_at m o) m2) /\
  (exists m3, setBlockFree (Arr o) m = Ret tt m3 /\
              isBlockInUse (Arr o) m3 = Ret 0 m3 /\
              getBlockSize (Arr o) m3 = Ret (size_at m o) m3).
Proof.
  intros Hok Hv. apply header_ok_fields in Hok as [H1 H2].
  split; [|split]; eexists; (split; [|split]).
  - rewrite setBlockSize_Arr, H1. reflexivity.
  - rewrite getBlockSize_Arr, H1. f_equal. apply size_after_store. exact Hv.
  - intros u. rewrite !isBlockInUse_Arr, H2.
    rewrite in_use_at_store_far by (unfold size_field; simpl Z.of_nat; lia).
    intros Hu. apply Ret_inj in Hu as [<- _]. reflexivity.
  - unfold setBlockInUse. rewrite set_in_use_Arr, H2. reflexivity.
  - rewrite isBlockInUse_Arr, H2, in_use_after_store by (unfold IN_USE; lia).
    reflexivity.
  - rewrite getBlockSize_Arr, H1. f_equal.
    apply size_at_store_far; unfold in_use_field; simpl Z.of_nat; lia.
  - unfold setBlockFree. rewrite set_in_use_Arr, H2. reflexivity.
  - rewrite isBlockInUse_Arr, H2, in_use_after_store by (unfold FREE; lia).
    reflexivity.
  - rewrite getBlockSize_Arr, H1. f_equal.
    apply size_at_store_far; unfold in_use_field; simpl Z.of_nat; lia.
Qed.

Lemma header_fields_round_trip_witness :
  (exists m1, setBlockSize (Arr 48) 4242 formatted_arena = Ret tt m1 /\
              getBlockSize (Arr 48) m1 = Ret 4242 m1 /\
              forall u, isBlockInUse (Arr 48) formatted_arena = Ret u formatted_arena ->
                        isBlockInUse (Arr 48) m1 = Ret u m1) /\
  (exists m2, setBlockInUse (Arr 48) formatted_arena = Ret tt m2 /\
              isBlockInUse (Arr 48) m2 = Ret 1 m2 /\
              getBlockSize (Arr 48) m2 = Ret (size_at formatted_arena 48) m2) /\
  (exists m3, setBlockFree (Arr 48) formatted_arena = Ret tt m3 /\
              isBlockInUse (Arr 48) m3 = Ret 0 m3 /\
              getBlockSize (Arr 48) m3 = Ret (size_at formatted_arena 48) m3).
Proof.
  apply (header_fields_round_trip 48 4242 formatted_arena).
  - reflexivity.
  - lia.
Defined.

(** ** mymalloc: the initialisation and the failure exits *)

(** X3.  On every array, whatever it holds, the first-call initialisation
    of [mymalloc] writes nothing: [getBlockStatus] answers 1 only when the
    size field of the first header is [ARENA_BYTES], and the guard also
    asks for that field to be 0. *)
Theorem initialisation_never_fires m :
  lazy_init (Arr 0) m = Ret tt m /\
  (forall st m', getBlockStatus m = Ret st m' ->
     m' = m /\ (st = 1 <-> size_at m 0 = ARENA_BYTES /\ is_free m 0 = true)).
Proof.
  split; [apply lazy_init_noop|].
  intros st m'. unfold getBlockStatus, bind. rewrite isBlockInUse_Arr.
  change (in_arena 0 in_use_field 4) with true. cbv iota.
  rewrite getBlockSize_Arr. change (in_arena 0 size_field 8) with true. cbv iota.
  rewrite in_use_flag_free. unfold ret. intros H. apply Ret_inj in H as [<- <-].
  split; [reflexivity|].
  destruct (size_at m 0 =? ARENA_BYTES) eqn:Es; destruct (is_free m 0) eqn:Ef; cbn [andb].
  - apply Z.eqb_eq in Es. split; auto.
  - split; [discriminate|]. intros [_ H]. discriminate.
  - apply Z.eqb_neq in Es. split; [discriminate|]. intros [H _]. contradiction.
  - apply Z.eqb_neq in Es. split; [discriminate|]. intros [H _]. contradiction.
Qed.

Lemma initialisation_never_fires_witness :
  lazy_init (Arr 0) formatted_arena = Ret tt formatted_arena /\
  (formatted_arena = formatted_arena /\
   (0 = 1 <-> size_at formatted_arena 0 = ARENA_BYTES /\ is_free formatted_arena 0 = true)).
Proof.
  split.
  - apply (proj1 (initialisation_never_fires formatted_arena)).
  - apply (proj2 (initialisation_never_fires formatted_arena) 0 formatted_arena).
    vm_compute. reflexivity.
Defined.

(** X4.  A call of [mymalloc] that reports a failure returns the null
    pointer and leaves the array as it was.  [InvalidSize] is reported,
    whatever the array holds, exactly for a size of 0 or above
    [ARENA_BYTES - META_SIZE]; the other report is [OutOfMemory]. *)
Theorem failed_allocation_changes_nothing fuel size m :
  (size <= 0 \/ ARENA_BYTES - META_SIZE < size ->
     mymalloc fuel size m = Ret (Null, Some InvalidSize) m) /\
  (forall p d m', mymalloc fuel size m = Ret (p, Some d) m' ->
     p = Null /\ m' = m /\
     ((d = InvalidSize /\ (size <= 0 \/ ARENA_BYTES - META_SIZE < size)) \/
      (d = OutOfMemory /\ 0 < size <= ARENA_BYTES - META_SIZE))).
Proof.
  split.
  - intros Hs. unfold mymalloc.
    replace ((size <=? 0) || (size >? ARENA_BYTES - META_SIZE)) with true; [reflexivity|].
    symmetry. apply orb_true_iff. rewrite Z.gtb_ltb, Z.leb_le, Z.ltb_lt. exact Hs.
  - intros p d m' H. unfold mymalloc in H.
    destruct ((size <=? 0) || (size >? ARENA_BYTES - META_SIZE)) eqn:E.
    + apply Ret_inj in H as [H <-]. injection H as <- <-.
      apply orb_true_iff in E. rewrite Z.gtb_ltb, Z.leb_le, Z.ltb_lt in E. auto.
    + apply orb_false_iff in E as [E1 E2].
      apply Z.leb_gt in E1. rewrite Z.gtb_ltb in E2. apply Z.ltb_ge in E2.
      unfold bind in H. rewrite lazy_init_noop in H.
      apply (malloc_loop_ret _ _ _ _ _ []) in H; [|constructor|constructor].
      destruct H as [(Hd & -> & ->)|[Hd _]]; [|discriminate].
      injection Hd as ->. split; [reflexivity|]. split; [reflexivity|].
      right. split; [reflexivity|lia].
Qed.

Lemma failed_allocation_changes_nothing_witness :
  mymalloc 8 0 formatted_arena = Ret (Null, Some InvalidSize) formatted_arena /\
  (Null = Null /\ formatted_arena = formatted_arena /\
   ((InvalidSize = InvalidSize /\ (ARENA_BYTES <= 0 \/ ARENA_BYTES - META_SIZE < ARENA_BYTES)) \/
    (InvalidSize = OutOfMemory /\ 0 < ARENA_BYTES <= ARENA_BYTES - META_SIZE))).
Proof.
  split.
  - apply (proj1 (failed_allocation_changes_nothing 8 0 formatted_arena)). lia.
  - apply (proj2 (failed_allocation_changes_nothing 8 ARENA_BYTES formatted_arena)
             Null InvalidSize formatted_arena).
    vm_compute. reflexivity.
Defined.

(** X5.  The block whose payload a successful [mymalloc] returns has its
    header inside the array, is marked in use, and its size field is at
    least [META_SIZE] plus the rounded request, so at least the size asked
    for plus [META_SIZE]. *)
Theorem allocated_block_is_marked_and_large fuel size m p m' :
  mymalloc fuel size m = Ret (p, None) m' ->
  exists o,
    p = Arr (o + META_SIZE) /\ 0 <= o /\ o + 12 <= ARENA_BYTES /\
    in_use_at m' o = IN_USE /\
    META_SIZE + size <= META_SIZE + ALIGNMENT size <= size_at m' o.
Proof.
  intros H. pose proof (mymalloc_ret _ _ _ _ _ H) as [Hs _].
  apply mymalloc_effect in H
    as (o & remaining & Hok & Hp & _ & Hr & Hpos & Hu & Hsplit & Hkeep).
  apply header_ok_spec in Hok. exists o.
  pose proof (ALIGNMENT_bounds size Hs) as Ha.
  assert (Hsz : META_SIZE + ALIGNMENT size <= size_at m' o).
  { destruct (Z_lt_le_dec remaining (META_SIZE + 8)) as [Hlt|Hge].
    - destruct (Hkeep Hlt) as [-> _]. lia.
    - destruct (Hsplit Hge) as [-> _]. lia. }
  repeat split; try tauto; lia.
Qed.

Lemma allocated_block_is_marked_and_large_witness :
  exists m',
    mymalloc 8 13 formatted_arena = Ret (Arr 16, None) m' /\
    exists o,
      Arr 16 = Arr (o + META_SIZE) /\ 0 <= o /\ o + 12 <= ARENA_BYTES /\
      in_use_at m' o = IN_USE /\
      META_SIZE + 13 <= META_SIZE + ALIGNMENT 13 <= size_at m' o.
Proof.
  eexists. split; [vm_compute; reflexivity|].
  apply (allocated_block_is_marked_and_large 8 13 formatted_arena).
  vm_compute. reflexivity.
Defined.

(** ** myfree: the two reports that return *)

(** X6.  With fuel for one iteration, [myfree] reports [NullPointer]
    exactly for the null pointer, and reports [DoubleFree] exactly for the
    payload address of the first block while that block is not in use; in
    both cases the array is left as it was. *)
Theorem free_reports fuel ptr m :
  (ptr = Null -> myfree fuel ptr m = Ret (Some NullPointer) m) /\
  (ptr = getPayload (Arr 0) -> is_free m 0 = true ->
     myfree (S fuel) ptr m = Ret (Some DoubleFree) m) /\
  (forall m', myfree fuel ptr m = Ret (Some NullPointer) m' -> ptr = Null /\ m' = m) /\
  (forall m', myfree fuel ptr m = Ret (Some DoubleFree) m' ->
     ptr = getPayload (Arr 0) /\ is_free m 0 = true /\ m' = m).
Proof.
  split; [|split; [|split]].
  - intros ->. reflexivity.
  - intros -> Hf. unfold myfree. change (pointer_eqb (getPayload (Arr 0)) Null) with false.
    cbv iota. rewrite free_loop_first.
    change (pointer_eqb (getPayload (Arr 0)) (getPayload (Arr 0))) with true.
    cbv iota. rewrite Hf. reflexivity.
  - intros m' H. apply myfree_ret_inv in H as [-> [[-> _]|(_ & _ & H)]]; [auto|discriminate].
  - intros m' H. apply myfree_ret_inv in H as [-> [[_ H]|(-> & Hf & _)]]; [discriminate|auto].
Qed.

Lemma free_reports_witness :
  myfree 8 Null formatted_arena = Ret (Some NullPointer) formatted_arena /\
  myfree 8 (Arr 16) formatted_arena = Ret (Some DoubleFree) formatted_arena /\
  (Null = Null /\ formatted_arena = formatted_arena) /\
  (Arr 16 = getPayload (Arr 0) /\ is_free formatted_arena 0 = true /\
   formatted_arena = formatted_arena).
Proof.
  split; [|split; [|split]].
  - apply (proj1 (free_reports 8 Null formatted_arena)). reflexivity.
  - apply (proj1 (proj2 (free_reports 7 (Arr 16) formatted_arena))); reflexivity.
  - apply (proj1 (proj2 (proj2 (free_reports 8 Null formatted_arena)))).
    vm_compute. reflexivity.
  - apply (proj2 (proj2 (proj2 (free_reports 8 (Arr 16) formatted_arena)))).
    vm_compute. reflexivity.
Defined.

(** ** Arrays whose blocks tile them *)

Lemma size_at_ext (m m' : mem) o :
  (forall a, o <= a < o + 8 -> byte_at m' a = byte_at m a) -> size_at m' o = size_at m o.
Proof.
  intros H. unfold size_at, size_field. apply load_le_ext.
  intros a Ha. apply H. simpl Z.of_nat in Ha. lia.
Qed.

Lemma in_use_at_ext (m m' : mem) o :
  (forall a, o + 8 <= a < o + 12 -> byte_at m' a = byte_at m a) ->
  in_use_at m' o = in_use_at m o.
Proof.
  intros H. unfold in_use_at, in_use_field. apply load_le_ext.
  intros a Ha. apply H. simpl Z.of_nat in Ha. lia.
Qed.

Lemma tiles_ext n m o :
  tiles n m o ->
  forall m', (forall a, o <= a -> byte_at m' a = byte_at m a) -> tiles n m' o.
Proof.
  induction 1 as [m|n m o Ho Hn _ IH]; intros m' Hext; [constructor|].
  assert (Hs : size_at m' o = size_at m o) by (apply size_at_ext; intros; apply Hext; lia).
  pose proof (size_at_range m o) as Hr.
  assert (Hnext : next_of m' o = next_of m o) by (unfold next_of; rewrite Hs; reflexivity).
  apply tiles_block; rewrite ?Hnext; auto.
  apply IH. intros a Ha. apply Hext. unfold next_of in Ha. arena_lia.
Qed.

Lemma tiles_header_ok n m o : tiles (S n) m o -> header_ok o = true.
Proof.
  intros H. inversion H as [|n' m0 o' Ho Hn _]; subst.
  pose proof (size_at_range m o). unfold next_of in Hn.
  apply header_ok_spec. arena_lia.
Qed.

(** *** mymalloc on a tiled array *)

Lemma malloc_loop_first_fit m total s o :
  first_fit_at m total s o ->
  0 <= total ->
  forall fuel cb,
    0 <= cb -> cb < s \/ (s = 0 /\ cb = 0) ->
    ARENA_BYTES - s < META_SIZE * Z.of_nat fuel ->
    exists m', malloc_loop fuel total (Arr s) cb m = Ret (getPayload (Arr o), None) m'.
Proof.
  intros Hfit Ht.
  induction Hfit as [s Hs Hn Hf|s o Hs Hn Hf _ IH]; intros fuel cb Hcb Hlt Hfuel;
    pose proof (size_at_range m s) as Hr; unfold next_of in Hn;
    (destruct fuel as [|fuel]; [arena_lia|]); rewrite malloc_loop_step.
  - test_is (cb <? ARENA_BYTES) true.
    test_is (in_arena s size_field 8) true.
    test_is (in_arena s in_use_field 4) true.
    fold (fits m total s). rewrite Hf.
    unfold fits in Hf. apply andb_true_iff in Hf as [_ Hge].
    rewrite Z.geb_leb in Hge. apply Z.leb_le in Hge.
    rewrite take_block_Arr; [|apply header_ok_spec; arena_lia|lia|lia].
    cbv zeta.
    destruct (size_at m s - total >=? META_SIZE + 8) eqn:Esplit.
    + rewrite Z.geb_leb in Esplit. apply Z.leb_le in Esplit.
      test_is (in_arena (s + (META_SIZE + total)) size_field 8) true.
      test_is (in_arena (s + (META_SIZE + total)) in_use_field 4) true.
      cbn [andb]. eexists. reflexivity.
    + destruct (size_at m s - total >? 0); eexists; reflexivity.
  - test_is (cb <? ARENA_BYTES) true.
    test_is (in_arena s size_field 8) true.
    test_is (in_arena s in_use_field 4) true.
    fold (fits m total s). rewrite Hf.
    rewrite wrap_small by arena_lia.
    apply IH; unfold next_of; arena_lia.
Qed.

(** X7.  On an array whose blocks lie inside it one after the other, if
    some block passes the test of [mymalloc] for a valid size (free, size
    field at least [META_SIZE] plus the rounded request), the call returns
    the payload address of the first such block and no diagnostic. *)
Theorem allocation_succeeds_at_first_fit fuel size m o :
  0 < size <= ARENA_BYTES - META_SIZE ->
  first_fit_at m (META_SIZE + ALIGNMENT size) 0 o ->
  (Z.to_nat (ARENA_BYTES / META_SIZE) < fuel)%nat ->
  exists m', mymalloc fuel size m = Ret (getPayload (Arr o), None) m'.
Proof.
  intros Hs Hfit Hfuel. rewrite mymalloc_valid by exact Hs.
  destruct (total_size_bounds size Hs) as [-> Hb].
  change (ARENA_BYTES / META_SIZE) with 2048 in Hfuel.
  apply malloc_loop_first_fit; auto; arena_lia.
Qed.

Lemma allocation_succeeds_at_first_fit_witness :
  exists m', mymalloc 4096 16 two_free_blocks = Ret (getPayload (Arr 32), None) m'.
Proof.
  apply (allocation_succeeds_at_first_fit 4096 16 two_free_blocks 32).
  - arena_lia.
  - apply fit_later; [lia|vm_compute; congruence|vm_compute; reflexivity|].
    replace (next_of two_free_blocks 0) with 32 by (vm_compute; reflexivity).
    apply fit_here; [lia|vm_compute; congruence|vm_compute; reflexivity].
  - vm_compute. lia.
Defined.

Lemma malloc_loop_tiled_no_oom total n m o :
  tiles n m o ->
  forall fuel cb p d m',
    0 <= cb -> cb < o \/ (o = 0 /\ cb = 0) ->
    malloc_loop fuel total (Arr o) cb m = Ret (p, d) m' -> d = None.
Proof.
  induction 1 as [m|n m o Ho Hn _ IH]; intros fuel cb p d m' Hcb Hlt H;
    (destruct fuel as [|fuel]; [discriminate|]); rewrite malloc_loop_step in H.
  - revert H. test_is (cb <? ARENA_BYTES) true.
    change (in_arena ARENA_BYTES size_field 8) with false. discriminate.
  - pose proof (size_at_range m o) as Hr. unfold next_of in Hn.
    revert H. test_is (cb <? ARENA_BYTES) true.
    test_is (in_arena o size_field 8) true.
    test_is (in_arena o in_use_field 4) true.
    destruct (is_free m o && (size_at m o >=? total)).
    + destruct (take_block _ _ _ _) as [q mq| |]; try discriminate.
      intros H. apply Ret_inj in H as [H _]. congruence.
    + rewrite wrap_small by arena_lia. intros H.
      eapply IH; [| |exact H]; unfold next_of; arena_lia.
Qed.

(** X8.  On an array that its blocks tile exactly, [mymalloc] never
    reports [OutOfMemory]: the only failure it returns is [InvalidSize]. *)
Theorem no_out_of_memory_report_on_tiled_array n fuel size m p d m' :
  tiles n m 0 ->
  mymalloc fuel size m = Ret (p, Some d) m' ->
  d = InvalidSize.
Proof.
  intros Ht H. unfold mymalloc in H.
  destruct ((size <=? 0) || (size >? ARENA_BYTES - META_SIZE)).
  - apply Ret_inj in H as [H _]. congruence.
  - unfold bind in H. rewrite lazy_init_noop in H.
    apply (malloc_loop_tiled_no_oom _ _ _ _ Ht) in H; [discriminate|lia|right; lia].
Qed.

Lemma no_out_of_memory_report_on_tiled_array_witness :
  InvalidSize = InvalidSize.
Proof.
  apply (no_out_of_memory_report_on_tiled_array 1 8 0 one_block_in_use Null
           InvalidSize one_block_in_use).
  - apply tiles_block; [lia|vm_compute; congruence|].
    replace (next_of one_block_in_use 0) with ARENA_BYTES by (vm_compute; reflexivity).
    apply tiles_end.
  - vm_compute. reflexivity.
Defined.

(** *** coalesce on a tiled array *)

(** From the block at [o] of a tiled array the loop of [coalesce] returns;
    the blocks still tile the array, none from [o] on is free together with
    the block after it, and the bytes before [o] and the second half of the
    header at [o] are as they were.  The flag becomes 1 exactly when blocks
    were merged. *)
Lemma coalesce_loop_tiled n : forall m o,
  tiles n m o ->
  exists fuel0 m' k,
    (k <= n)%nat /\ tiles k m' o /\ settled m' o /\
    (forall a, a < o \/ o + 8 <= a < o + 16 -> byte_at m' a = byte_at m a) /\
    forall fuel c0, (fuel0 <= fuel)%nat ->
      exists c,
        coalesce_loop fuel (Arr o) c0 m = Ret c m' /\
        ((k = n /\ c = c0 /\ m' = m) \/ ((k < n)%nat /\ c = 1)).
Proof.
  induction n as [|n IH]; intros m o Ht.
  - inversion Ht; subst. exists 1%nat, m, O.
    repeat split; auto; try constructor; try lia.
    intros fuel c0 Hfuel. destruct fuel as [|fuel]; [lia|].
    rewrite coalesce_loop_step.
    change (ARENA_BYTES <? ARENA_BYTES) with false. cbv iota.
    exists c0. auto.
  - pose proof (tiles_header_ok _ _ _ Ht) as Hok.
    pose proof (proj1 (header_ok_spec o) Hok) as Hob.
    pose proof (proj1 (header_ok_fields o) Hok) as [Hs1 Hs2].
    inversion Ht as [|n' m0 o' Ho Hn Htn]; subst.
    pose proof (size_at_range m o) as Hr.
    destruct (next_of m o <? ARENA_BYTES) eqn:En.
    + (* a block follows *)
      apply Z.ltb_lt in En.
      destruct n as [|n]; [inversion Htn; lia|].
      pose proof (tiles_header_ok _ _ _ Htn) as Hok'.
      pose proof (proj1 (header_ok_spec _) Hok') as Hnb.
      pose proof (proj1 (header_ok_fields _) Hok') as [Hn1 Hn2].
      inversion Htn as [|n' m0 o' Ho' Hn' Htn']; subst.
      pose proof (size_at_range m (next_of m o)) as Hr'.
      destruct (is_free m o && is_free m (next_of m o)) eqn:Eboth.
      * (* both free: merge, then go on from [o] *)
        apply andb_true_iff in Eboth as [Ef Ef'].
        set (v := wrap (wrap (size_at m o + META_SIZE) + size_at m (next_of m o))).
        set (m1 := store_le m (o + size_field) 8 v).
        assert (Hv : v = size_at m o + META_SIZE + size_at m (next_of m o)).
        { unfold v. unfold next_of in *.
          rewrite (wrap_small (size_at m o + META_SIZE)) by arena_lia.
          apply wrap_small. arena_lia. }
        assert (Hsz : size_at m1 o = v).
        { apply size_after_store. unfold next_of in *. arena_lia. }
        assert (Hnext : next_of m1 o = next_of m (next_of m o)).
        { unfold next_of at 1. rewrite Hsz, Hv. unfold next_of. lia. }
        assert (Ht1 : tiles (S n) m1 o).
        { apply tiles_block; rewrite ?Hnext; auto.
          apply (tiles_ext _ _ _ Htn'). intros a Ha. unfold m1.
          apply byte_at_store_le. unfold next_of in *. arena_lia. }
        destruct (IH m1 o Ht1) as (fuel0 & m' & k & Hk & Htk & Hset & Hfr & Hrun).
        exists (S fuel0), m', k. repeat split; auto.
        -- intros a Ha. rewrite Hfr by exact Ha. unfold m1.
           apply byte_at_store_le. arena_lia.
        -- intros fuel c0 Hfuel.
           destruct fuel as [|fuel]; [lia|]. rewrite coalesce_loop_step.
           test_is (o <? ARENA_BYTES) true.
           test_is (next_of m o <? ARENA_BYTES) true.
           rewrite Hs1, Hs2, Ef, Hn1, Hn2, Ef'. fold v. fold m1.
           destruct (Hrun fuel 1 ltac:(lia)) as (c & Hc & Hflag).
           exists c. split; [exact Hc|]. right.
           destruct Hflag as [(_ & -> & _)|[_ ->]]; split; auto; lia.
      * (* not both free: go on from the next block *)
        destruct (IH m (next_of m o) Htn)
          as (fuel0 & m' & k & Hk & Htk & Hset & Hfr & Hrun).
        assert (Hgap : o + 16 <= next_of m o) by (unfold next_of; arena_lia).
        assert (Hsz : size_at m' o = size_at m o)
          by (apply size_at_ext; intros a Ha; apply Hfr; lia).
        assert (Hnext : next_of m' o = next_of m o)
          by (unfold next_of; rewrite Hsz; reflexivity).
        assert (Hf : is_free m' o = is_free m o).
        { unfold is_free. f_equal. f_equal. apply in_use_at_ext.
          intros a Ha. apply Hfr. lia. }
        assert (Hf' : is_free m' (next_of m o) = is_free m (next_of m o)).
        { unfold is_free. f_equal. f_equal. apply in_use_at_ext.
          intros a Ha. apply Hfr. lia. }
        exists (S fuel0), m', (S k). repeat split; auto.
        -- lia.
        -- apply tiles_block; rewrite ?Hnext; auto.
        -- destruct (is_free m o) eqn:Ef.
           ++ cbn [andb] in Eboth.
              apply settled_next_used; rewrite ?Hnext, ?Hf, ?Hf'; auto.
           ++ apply settled_used; rewrite ?Hnext, ?Hf; auto.
        -- intros a Ha. apply Hfr. lia.
        -- intros fuel c0 Hfuel.
           destruct fuel as [|fuel]; [lia|]. rewrite coalesce_loop_step.
           test_is (o <? ARENA_BYTES) true.
           test_is (next_of m o <? ARENA_BYTES) true.
           rewrite Hs1, Hs2.
           destruct (Hrun fuel c0 ltac:(lia)) as (c & Hc & Hflag).
           exists c. split.
           ++ destruct (is_free m o); [|exact Hc].
              cbn [andb] in Eboth. rewrite Hn2, Eboth. exact Hc.
           ++ destruct Hflag as [(-> & -> & ->)|[Hlt ->]]; [left; auto|right; split; [lia|auto]].
    + (* the block at [o] is the last one *)
      apply Z.ltb_ge in En.
      exists 1%nat, m, (S n). repeat split; auto.
      * apply settled_last; auto.
      * intros fuel c0 Hfuel.
        destruct fuel as [|fuel]; [lia|]. rewrite coalesce_loop_step.
        test_is (o <? ARENA_BYTES) true.
        test_is (next_of m o <? ARENA_BYTES) false.
        rewrite Hs1. exists c0. auto.
Qed.

(** X9.  Called on a block of an array that its blocks tile, [coalesce]
    returns (with enough fuel, the same result for any more).  Afterwards
    the blocks still tile the array, so the footprints still add up to its
    length; from the given block to the end no block is free together with
    the block after it; nothing before the given block has changed.  It
    returns 0 exactly when it merged nothing, and then the array is as it
    was; it returns 1 exactly when fewer blocks are left. *)
Theorem coalesce_settles_a_tiled_array n m o :
  tiles n m o ->
  exists fuel0 m' k,
    (k <= n)%nat /\ tiles k m' o /\ settled m' o /\
    (forall a, a < o -> byte_at m' a = byte_at m a) /\
    forall fuel, (fuel0 <= fuel)%nat ->
      exists c,
        coalesce fuel (Arr o) m = Ret c m' /\
        ((k = n /\ c = 0 /\ m' = m) \/ ((k < n)%nat /\ c = 1)).
Proof.
  intros Ht.
  destruct (coalesce_loop_tiled n m o Ht) as (fuel0 & m' & k & Hk & Htk & Hset & Hfr & Hrun).
  exists fuel0, m', k. repeat split; auto.
  intros fuel Hfuel. exact (Hrun fuel 0 Hfuel).
Qed.

(** X10.  On a tiled array a second [coalesce] on the same block undoes
    and adds nothing: after the first call has returned, the second returns
    0 and leaves the array as the first call left it. *)
Theorem coalesce_twice_is_coalesce_once n m o :
  tiles n m o ->
  exists fuel0 m',
    forall fuel, (fuel0 <= fuel)%nat ->
      (exists c, coalesce fuel (Arr o) m = Ret c m') /\
      coalesce fuel (Arr o) m' = Ret 0 m'.
Proof.
  intros Ht.
  destruct (coalesce_loop_tiled n m o Ht) as (fuel0 & m' & k & _ & _ & Hset & _ & Hrun).
  destruct (coalesce_loop_settled m' o Hset) as [fuel1 Hagain].
  exists (Nat.max fuel0 fuel1), m'. intros fuel Hfuel. split.
  - destruct (Hrun fuel 0 ltac:(lia)) as (c & Hc & _). exists c. exact Hc.
  - apply Hagain. lia.
Qed.

Lemma tiles_three_free_blocks : tiles 3 three_free_blocks 0.
Proof.
  apply tiles_block; [lia|vm_compute; congruence|].
  replace (next_of three_free_blocks 0) with 32 by (vm_compute; reflexivity).
  apply tiles_block; [lia|vm_compute; congruence|].
  replace (next_of three_free_blocks 32) with 64 by (vm_compute; reflexivity).
  apply tiles_block; [lia|vm_compute; congruence|].
  replace (next_of three_free_blocks 64) with ARENA_BYTES by (vm_compute; reflexivity).
  apply tiles_end.
Qed.

Lemma coalesce_settles_a_tiled_array_witness :
  exists fuel0 m' k,
    (k <= 3)%nat /\ tiles k m' 0 /\ settled m' 0 /\
    (forall a, a < 0 -> byte_at m' a = byte_at three_free_blocks a) /\
    forall fuel, (fuel0 <= fuel)%nat ->
      exists c,
        coalesce fuel (Arr 0) three_free_blocks = Ret c m' /\
        ((k = 3%nat /\ c = 0 /\ m' = three_free_blocks) \/ ((k < 3)%nat /\ c = 1)).
Proof.
  apply (coalesce_settles_a_tiled_array 3 three_free_blocks 0).
  exact tiles_three_free_blocks.
Defined.

Lemma coalesce_twice_is_coalesce_once_witness :
  exists fuel0 m',
    forall fuel, (fuel0 <= fuel)%nat ->
      (exists c, coalesce fuel (Arr 0) three_free_blocks = Ret c m') /\
      coalesce fuel (Arr 0) m' = Ret 0 m'.
Proof.
  apply (coalesce_twice_is_coalesce_once 3 three_free_blocks 0).
  exact tiles_three_free_blocks.
Defined.

(** *** Allocations that take a whole block *)

Lemma malloc_loop_whole_block total n m s :
  tiles n m s -> 0 <= total ->
  forall fuel cb o m',
    malloc_loop fuel total (Arr s) cb m = Ret (Arr (o + META_SIZE), None) m' ->
    size_at m o - total < META_SIZE + 8 ->
    tiles n m' s /\ (forall a, a < s -> byte_at m' a = byte_at m a).
Proof.
  intros Ht Htot.
  induction Ht as [m|n m s Hs Hn Htn IH]; intros fuel cb o m' H Hwhole;
    (destruct fuel as [|fuel]; [discriminate|]); rewrite malloc_loop_step in H.
  - change (in_arena ARENA_BYTES size_field 8) with false in H.
    destruct (cb <? ARENA_BYTES); discriminate.
  - pose proof (size_at_range m s) as Hr.
    assert (Hgap : s + 16 <= next_of m s) by (unfold next_of; arena_lia).
    assert (Hok : header_ok s = true) by (apply header_ok_spec; arena_lia).
    destruct (cb <? ARENA_BYTES); [|discriminate].
    destruct (in_arena s size_field 8); [|discriminate].
    destruct (in_arena s in_use_field 4); [|discriminate].
    destruct (is_free m s && (size_at m s >=? total)) eqn:Efit.
    + apply andb_true_iff in Efit as [_ Hge].
      rewrite Z.geb_leb in Hge. apply Z.leb_le in Hge.
      rewrite take_block_Arr in H by (auto; lia). cbv zeta in H.
      assert (Hfinish : forall mt,
                size_at mt s = size_at m s ->
                (forall a, a < s \/ s + 12 <= a -> byte_at mt a = byte_at m a) ->
                tiles (S n) mt s /\ (forall a, a < s -> byte_at mt a = byte_at m a)).
      { intros mt Hsz Hfr. split; [|intros a Ha; apply Hfr; lia].
        assert (Hnext : next_of mt s = next_of m s)
          by (unfold next_of; rewrite Hsz; reflexivity).
        apply tiles_block; rewrite ?Hnext; auto.
        apply (tiles_ext _ _ _ Htn). intros a Ha. apply Hfr. lia. }
      destruct (size_at m s - total >=? META_SIZE + 8) eqn:Esplit.
      * exfalso. rewrite Z.geb_leb in Esplit. apply Z.leb_le in Esplit.
        destruct (_ && _) in H; [|discriminate].
        apply Ret_inj in H as [H _].
        assert (o = s) by (injection H; lia). subst o. lia.
      * destruct (size_at m s - total >? 0) eqn:Epos;
          apply Ret_inj in H as [_ <-]; apply Hfinish.
        -- apply size_after_store. lia.
        -- intros a Ha. rewrite !byte_at_store_le by arena_lia. reflexivity.
        -- rewrite Z.gtb_ltb in Epos. apply Z.ltb_ge in Epos.
           rewrite (size_after_store _ s) by lia. lia.
        -- intros a Ha. rewrite !byte_at_store_le by arena_lia. reflexivity.
    + apply IH in H as [Ht' Hfr]; [|exact Hwhole].
      split; [|intros a Ha; apply Hfr; lia].
      assert (Hsz : size_at m' s = size_at m s)
        by (apply size_at_ext; intros a Ha; apply Hfr; lia).
      assert (Hnext : next_of m' s = next_of m s)
        by (unfold next_of; rewrite Hsz; reflexivity).
      apply tiles_block; rewrite ?Hnext; auto.
Qed.

(** X11.  On an array that its blocks tile, a successful [mymalloc] that
    does not split (the size field of the block it takes exceeds
    [META_SIZE] plus the rounded request by less than [META_SIZE + 8])
    leaves the array tiled by the same number of blocks: the footprints
    still add up to the length of the array. *)
Theorem whole_block_allocation_keeps_the_tiling n fuel size m o m' :
  tiles n m 0 ->
  mymalloc fuel size m = Ret (getPayload (Arr o), None) m' ->
  size_at m o - (META_SIZE + ALIGNMENT size) < META_SIZE + 8 ->
  tiles n m' 0.
Proof.
  intros Ht H Hwhole. pose proof (mymalloc_ret _ _ _ _ _ H) as [Hs _].
  rewrite mymalloc_valid in H by exact Hs.
  destruct (total_size_bounds size Hs) as [Hw Hb]. rewrite Hw in H.
  apply (malloc_loop_whole_block _ _ _ _ Ht) in H; [tauto|arena_lia|exact Hwhole].
Qed.

Lemma whole_block_allocation_keeps_the_tiling_witness :
  exists m',
    mymalloc 8 16 snug_free_block = Ret (Arr 16, None) m' /\ tiles 2 m' 0.
Proof.
  eexists. split; [vm_compute; reflexivity|].
  apply (whole_block_allocation_keeps_the_tiling 2 8 16 snug_free_block 0).
  - apply tiles_block; [lia|vm_compute; congruence|].
    replace (next_of snug_free_block 0) with 56 by (vm_compute; reflexivity).
    apply tiles_block; [lia|vm_compute; congruence|].
    replace (next_of snug_free_block 56) with ARENA_BYTES by (vm_compute; reflexivity).
    apply tiles_end.
  - vm_compute. reflexivity.
  - vm_compute. reflexivity.
Defined.

(** *** Alignment of what mymalloc returns *)

Lemma block_chain_aligned m pre o :
  block_chain m pre o -> Forall (fun b => size_at m b mod 8 = 0) pre -> o mod 8 = 0.
Proof.
  induction 1 as [|pre o _ IH]; intros Hpre; [reflexivity|].
  apply Forall_app in Hpre as [Hpre Ho]. inversion Ho as [|b l Hb _]; subst.
  specialize (IH Hpre). unfold next_of. rewrite META_SIZE_eq.
  rewrite Z.add_mod, IH by lia. rewrite (Z.add_mod 16), Hb by lia. reflexivity.
Qed.

(** X12.  A successful [mymalloc] has walked from the array start over a
    run of blocks; if the size fields of the blocks it passed are multiples
    of 8, the payload it returns starts at a multiple of 8 from the array
    start, and if the size field of the block it took was a multiple of 8,
    so are the size fields it leaves in that block and in the block it
    splits off. *)
Theorem allocation_keeps_multiples_of_8 fuel size m p m' :
  mymalloc fuel size m = Ret (p, None) m' ->
  exists pre o,
    block_chain m pre o /\ p = Arr (o + META_SIZE) /\
    (Forall (fun b => size_at m b mod 8 = 0) pre -> (o + META_SIZE) mod 8 = 0) /\
    (size_at m o mod 8 = 0 ->
       size_at m' o mod 8 = 0 /\
       (META_SIZE + 8 <= size_at m o - (META_SIZE + ALIGNMENT size) ->
          size_at m' (next_of m' o) mod 8 = 0)).
Proof.
  intros H. pose proof (mymalloc_ret _ _ _ _ _ H) as [Hs _].
  pose proof (mymalloc_ret_take _ _ _ _ _ H) as (pre & c & Hc & _ & Hok & _ & Hb & Ht).
  apply mymalloc_effect in H
    as (o & remaining & _ & Hp & _ & Hr & Hpos & _ & Hsplit & Hkeep).
  assert (Hpc : p = Arr (c + META_SIZE)).
  { rewrite take_block_Arr in Ht; auto; [|apply size_at_range].
    cbv zeta in Ht.
    repeat match type of Ht with
           | (if ?b then _ else _) = _ => destruct b
           end; congruence. }
  assert (c = o).
  { rewrite Hpc in Hp. unfold getPayload, pointer_add in Hp. injection Hp. lia. }
  subst c. exists pre, o. split; [exact Hc|]. split; [exact Hpc|]. split.
  - intros Hpre. rewrite Z.add_mod, (block_chain_aligned _ _ _ Hc Hpre) by lia.
    reflexivity.
  - intros Hmod.
    assert (Ha : ALIGNMENT size mod 8 = 0).
    { rewrite ALIGNMENT_wrap_eq, Z.mul_comm. apply Z.mod_mul. lia. }
    assert (Htot : (META_SIZE + ALIGNMENT size) mod 8 = 0).
    { rewrite Z.add_mod, Ha by lia. reflexivity. }
    assert (Hrem : remaining mod 8 = 0).
    { rewrite Hr. rewrite Zminus_mod, Hmod, Htot. reflexivity. }
    destruct (Z_lt_le_dec remaining (META_SIZE + 8)) as [Hlt|Hge].
    + destruct (Hkeep Hlt) as [-> _]. split; [exact Hmod|]. intros Hge. lia.
    + destruct (Hsplit Hge) as (-> & Hnew & _). split; [exact Htot|].
      intros _. rewrite Hnew. exact Hrem.
Qed.

Lemma allocation_keeps_multiples_of_8_witness :
  exists m',
    mymalloc 8 13 two_free_blocks = Ret (Arr 48, None) m' /\
    exists pre o,
      block_chain two_free_blocks pre o /\ Arr 48 = Arr (o + META_SIZE) /\
      (Forall (fun b => size_at two_free_blocks b mod 8 = 0) pre ->
       (o + META_SIZE) mod 8 = 0) /\
      (size_at two_free_blocks o mod 8 = 0 ->
         size_at m' o mod 8 = 0 /\
         (META_SIZE + 8 <= size_at two_free_blocks o - (META_SIZE + ALIGNMENT 13) ->
            size_at m' (next_of m' o) mod 8 = 0)).
Proof.
  eexists. split; [vm_compute; reflexivity|].
  apply (allocation_keeps_multiples_of_8 8 13 two_free_blocks).
  vm_compute. reflexivity.
Defined.

(** * The states the program reaches *)

(** ** Footprints of a tiled array *)









(** ** More fuel does not change a run that ended *)

Lemma coalesce_loop_more_fuel fuel : forall p c m,
  coalesce_loop fuel p c m <> Timeout ->
  coalesce_loop (S fuel) p c m = coalesce_loop fuel p c m.
Proof.
  induction fuel as [|fuel IH]; intros p c m H; [exfalso; apply H; reflexivity|].
  destruct p as [|o]; [reflexivity|].
  rewrite (coalesce_loop_step (S fuel) o c m), (coalesce_loop_step fuel o c m).
  rewrite (coalesce_loop_step fuel o c m) in H.
  repeat match goal with
         | |- context [if ?b then _ else _] => destruct b
         end; try reflexivity; apply IH; exact H.
Qed.

Lemma coalesce_loop_fuel_le fuel fuel' p c m :
  (fuel <= fuel')%nat -> coalesce_loop fuel p c m <> Timeout ->
  coalesce_loop fuel' p c m = coalesce_loop fuel p c m.
Proof.
  induction 1 as [|fuel' _ IH]; intros H; [reflexivity|].
  rewrite coalesce_loop_more_fuel; rewrite IH; auto.
Qed.

(** On a tiled array every run of [coalesce] that ends has ended as the
    runs with enough fuel do. *)
Lemma coalesce_tiled_result n m o :
  tiles n m o ->
  exists m' k j,
    (k <= n)%nat /\ tiles k m' o /\ settled m' o /\ merges j m m' /\
    (forall a, a < o -> byte_at m' a = byte_at m a) /\
    ((k = n /\ j = O /\ m' = m) \/ ((k < n)%nat /\ (0 < j)%nat)) /\
    (exists fuel0, forall fuel, (fuel0 <= fuel)%nat ->
       coalesce fuel (Arr o) m = Ret (if Nat.eqb j 0 then 0 else 1) m') /\
    (forall fuel, coalesce fuel (Arr o) m = Timeout \/
                  coalesce fuel (Arr o) m = Ret (if Nat.eqb j 0 then 0 else 1) m').
Proof.
  intros Ht.
  destruct (coalesce_loop_tiled n m o Ht) as (fuel0 & m' & k & Hk & Htk & Hset & Hfr & Hrun).
  destruct (Hrun fuel0 0 (le_n _)) as (c & Hc & Hflag).
  destruct (coalesce_loop_ret _ _ _ _ _ _ Hc) as (j & Hj & Hcj).
  assert (Hres : c = (if Nat.eqb j 0 then 0 else 1)).
  { destruct Hcj as [[-> ->]|[Hpos ->]]; [reflexivity|].
    destruct j; [lia|reflexivity]. }
  assert (Hall : forall fuel, (fuel0 <= fuel)%nat ->
            coalesce fuel (Arr o) m = Ret (if Nat.eqb j 0 then 0 else 1) m').
  { intros fuel Hfuel. unfold coalesce.
    rewrite (coalesce_loop_fuel_le fuel0 fuel) by (auto; rewrite Hc; discriminate).
    rewrite Hc, Hres. reflexivity. }
  exists m', k, j. repeat split; auto.
  - destruct Hflag as [(-> & -> & ->)|[Hlt ->]].
    + left. repeat split; auto. destruct Hcj as [[-> _]|[_ H]]; [reflexivity|discriminate].
    + right. split; [exact Hlt|]. destruct Hcj as [[_ H]|[H _]]; [discriminate|exact H].
  - exists fuel0. exact Hall.
  - intros fuel. destruct (coalesce fuel (Arr o) m) as [c1 m1|f|] eqn:E; [right| |left; reflexivity].
    + destruct (Nat.le_ge_cases fuel0 fuel) as [Hle|Hge].
      * rewrite <- E. apply Hall. exact Hle.
      * rewrite <- E. rewrite <- (Hall fuel0 (le_n _)). unfold coalesce in *.
        symmetry. apply coalesce_loop_fuel_le; [exact Hge|]. rewrite E. discriminate.
    + exfalso. destruct (Nat.le_ge_cases fuel0 fuel) as [Hle|Hge].
      * rewrite (Hall fuel Hle) in E. discriminate.
      * pose proof (Hall fuel0 (le_n _)) as H0. unfold coalesce in *.
        rewrite (coalesce_loop_fuel_le fuel fuel0) in H0 by (auto; rewrite E; discriminate).
        rewrite E in H0. discriminate.
Qed.

(** ** The sum of the footprints *)








(** ** Free blocks side by side *)





(** ** What one call of coalesce does *)

(** C7, as amended.  [coalesce(block)] walks from [block] to the end of the
    array.  At each block it looks at the block right after it only; when
    both are free it merges the two and stays, otherwise it moves on, so
    one call may merge several pairs and never merges a block in use.  On
    a block of an array that its blocks tile: the call returns and reads
    nothing outside the array; the array it leaves is reached by merges of
    two free neighbours each, is still tiled, and from [block] on has no
    block free together with the block after it; it returns 0 exactly when
    it merged nothing, and then the array is as it was.  In particular the
    call is a no-op that returns 0 when [block] is at the end of the array,
    when it is the last block, and when from [block] on no block is free
    together with the block after it. *)
Theorem coalesce_merges_every_free_pair_to_the_end :
  (forall fuel m o,
     o = ARENA_BYTES \/ (0 <= o /\ next_of m o = ARENA_BYTES) ->
     coalesce (S fuel) (Arr o) m = Ret 0 m) /\
  (forall n m o,
     tiles n m o -> settled m o ->
     exists fuel0, forall fuel, (fuel0 <= fuel)%nat -> coalesce fuel (Arr o) m = Ret 0 m) /\
  (forall n m o,
     tiles n m o ->
     exists m' k j,
       merges j m m' /\ tiles k m' o /\ settled m' o /\
       (forall a, a < o -> byte_at m' a = byte_at m a) /\
       ((k = n /\ j = O /\ m' = m) \/ ((k < n)%nat /\ (0 < j)%nat)) /\
       (exists fuel0, forall fuel, (fuel0 <= fuel)%nat ->
          coalesce fuel (Arr o) m = Ret (if Nat.eqb j 0 then 0 else 1) m') /\
       (forall fuel f, coalesce fuel (Arr o) m <> Crash f)).
Proof.
  split; [|split].
  - intros fuel m o [->|[Ho Hn]]; unfold coalesce; rewrite coalesce_loop_step.
    + reflexivity.
    + pose proof (size_at_range m o) as Hr. unfold next_of in Hn.
      test_is (o <? ARENA_BYTES) true.
      test_is (in_arena o size_field 8) true.
      unfold next_of. rewrite Hn. reflexivity.
  - intros n m o _ Hset. destruct (coalesce_loop_settled m o Hset) as [fuel0 H].
    exists fuel0. intros fuel Hfuel. apply H. exact Hfuel.
  - intros n m o Ht.
    destruct (coalesce_tiled_result _ _ _ Ht)
      as (m' & k & j & _ & Htk & Hset & Hj & Hfr & Hcases & Hrun & Hany).
    exists m', k, j. repeat split; auto.
    intros fuel f E. destruct (Hany fuel) as [H|H]; rewrite H in E; discriminate.
Qed.

Lemma coalesce_merges_every_free_pair_to_the_end_witness :
  coalesce 1 (Arr 0) formatted_arena = Ret 0 formatted_arena /\
  (exists fuel0, forall fuel, (fuel0 <= fuel)%nat ->
     coalesce fuel (Arr 0) used_used_free = Ret 0 used_used_free) /\
  (exists m' k j,
     merges j three_free_blocks m' /\ tiles k m' 0 /\ settled m' 0 /\
     (forall a, a < 0 -> byte_at m' a = byte_at three_free_blocks a) /\
     ((k = 3%nat /\ j = O /\ m' = three_free_blocks) \/ ((k < 3)%nat /\ (0 < j)%nat)) /\
     (exists fuel0, forall fuel, (fuel0 <= fuel)%nat ->
        coalesce fuel (Arr 0) three_free_blocks = Ret (if Nat.eqb j 0 then 0 else 1) m') /\
     (forall fuel f, coalesce fuel (Arr 0) three_free_blocks <> Crash f)).
Proof.
  destruct coalesce_merges_every_free_pair_to_the_end as (Hstop & Hsettled & Hsweep).
  split; [|split].
  - apply (Hstop 0%nat formatted_arena 0). right. split; [lia|]. vm_compute. reflexivity.
  - apply (Hsettled 3%nat used_used_free 0).
    + apply tiles_block; [lia|vm_compute; congruence|].
      replace (next_of used_used_free 0) with 32 by (vm_compute; reflexivity).
      apply tiles_block; [lia|vm_compute; congruence|].
      replace (next_of used_used_free 32) with 64 by (vm_compute; reflexivity).
      apply tiles_block; [lia|vm_compute; congruence|].
      replace (next_of used_used_free 64) with ARENA_BYTES by (vm_compute; reflexivity).
      apply tiles_end.
    + apply settled_used; [reflexivity|vm_compute; reflexivity|vm_compute; reflexivity|].
      replace (next_of used_used_free 0) with 32 by (vm_compute; reflexivity).
      apply settled_used; [reflexivity|vm_compute; reflexivity|vm_compute; reflexivity|].
      replace (next_of used_used_free 32) with 64 by (vm_compute; reflexivity).
      apply settled_last; [reflexivity|]. vm_compute. congruence.
  - apply (Hsweep 3%nat three_free_blocks 0). exact tiles_three_free_blocks.
Defined.

(** C7, counterexample.  On the untouched array, where [myfree] makes the
    call, [coalesce(global_arr)] does not stop at the neighbour of the
    first header: it goes through all 2048 zero headers, leaves the first
    one with size [ARENA_BYTES - META_SIZE] where one merge with its
    neighbour gives [META_SIZE], and returns 1.  Called on a block in use
    that is followed by two free blocks, it merges those two and returns 1,
    and called on the first of three free blocks it merges two pairs. *)
Lemma coalesce_merges_more_than_one_pair :
  (length (arena_blocks fresh_arena) = 2048%nat /\
   size_at fresh_arena 0 + META_SIZE + size_at fresh_arena (next_of fresh_arena 0)
   = META_SIZE /\
   exists m', coalesce 4096 (Arr 0) fresh_arena = Ret 1 m' /\
              size_at m' 0 = ARENA_BYTES - META_SIZE /\
              arena_blocks m' = [0]) /\
  (arena_blocks used_free_free = [0; 32; 64] /\
   is_free used_free_free 0 = false /\
   exists m', coalesce 4096 (Arr 0) used_free_free = Ret 1 m' /\
              size_at m' 32 <> size_at used_free_free 32 /\
              arena_blocks m' = [0; 32]) /\
  (arena_blocks three_free_blocks = [0; 32; 64] /\
   exists m', coalesce 4096 (Arr 0) three_free_blocks = Ret 1 m' /\
              arena_blocks m' = [0]).
Proof.
  split; [|split].
  - split; [vm_compute; reflexivity|]. split; [vm_compute; reflexivity|].
    eexists. split; [vm_compute; reflexivity|].
    split; vm_compute; reflexivity.
  - split; [vm_compute; reflexivity|]. split; [vm_compute; reflexivity|].
    eexists. split; [vm_compute; reflexivity|].
    split; [vm_compute; congruence|vm_compute; reflexivity].
  - split; [vm_compute; reflexivity|].
    eexists. split; [vm_compute; reflexivity|]. vm_compute. reflexivity.
Qed.

(** * The size field in mymalloc *)

(** [mymalloc] computes with the size field as the footprint of a block;
    [getNextBlock], which lays the blocks out, reads it as the payload
    size.  The statements of this section measure what the call does in
    footprints, [META_SIZE + size]. *)

Lemma size_at_formatted : size_at formatted_arena 0 = ARENA_BYTES - META_SIZE.
Proof. vm_compute. reflexivity. Qed.

Lemma full_from_formatted total :
  ARENA_BYTES - META_SIZE < total -> full_from formatted_arena total 0.
Proof.
  intros Ht. apply full_block.
  - lia.
  - vm_compute. congruence.
  - unfold fits. rewrite size_at_formatted.
    replace (ARENA_BYTES - META_SIZE >=? total) with false
      by (symmetry; rewrite Z.geb_leb; apply Z.leb_gt; lia).
    apply andb_false_r.
  - replace (next_of formatted_arena 0) with ARENA_BYTES by (vm_compute; reflexivity).
    apply full_end.
Qed.

(** The fit test of [mymalloc] compares the size field, not the footprint,
    with [META_SIZE] plus the rounded request.  So on the array formatted as one free block, whose
    footprint is [ARENA_BYTES], every size above [ARENA_BYTES - 2 *
    META_SIZE] that the size check accepts finds the one block free and
    large enough in footprint, and still the call passes it and reads past
    the array.  And on [two_free_blocks] the call for 16 bytes passes the
    free block at 0, whose footprint is [META_SIZE + 16], and returns the
    payload of the block at 32. *)
Lemma fit_test_passes_blocks_large_enough :
  (forall fuel size,
     ARENA_BYTES - 2 * META_SIZE < size <= ARENA_BYTES - META_SIZE ->
     (Z.to_nat (ARENA_BYTES / META_SIZE) < fuel)%nat ->
     is_free formatted_arena 0 = true /\
     META_SIZE + ALIGNMENT size <= META_SIZE + size_at formatted_arena 0 /\
     mymalloc fuel size formatted_arena = Crash (OutOfBounds ARENA_BYTES)) /\
  (arena_blocks two_free_blocks = [0; 32] /\
   is_free two_free_blocks 0 = true /\
   META_SIZE + ALIGNMENT 16 <= META_SIZE + size_at two_free_blocks 0 /\
   fst <$> returned (mymalloc 4096 16 two_free_blocks)
   = Some (getPayload (Arr 32), None) /\
   getPayload (Arr 32) <> getPayload (Arr 0)).
Proof.
  split.
  - intros fuel size Hs Hfuel.
    assert (Hv : 0 < size <= ARENA_BYTES - META_SIZE) by arena_lia.
    pose proof (ALIGNMENT_bounds size Hv) as Ha.
    split; [reflexivity|]. split; [rewrite size_at_formatted; lia|].
    rewrite mymalloc_valid by exact Hv.
    destruct (total_size_bounds size Hv) as [-> _].
    apply malloc_loop_full.
    + apply full_from_formatted. lia.
    + lia.
    + right. split; reflexivity.
    + change (ARENA_BYTES / META_SIZE) with 2048 in Hfuel. arena_lia.
  - split; [vm_compute; reflexivity|]. split; [vm_compute; reflexivity|].
    split; [vm_compute; congruence|]. split; [vm_compute; reflexivity|].
    vm_compute. congruence.
Qed.

Lemma fit_test_passes_blocks_large_enough_witness :
  is_free formatted_arena 0 = true /\
  META_SIZE + ALIGNMENT 32752 <= META_SIZE + size_at formatted_arena 0 /\
  mymalloc 4096 32752 formatted_arena = Crash (OutOfBounds ARENA_BYTES).
Proof.
  apply (proj1 fit_test_passes_blocks_large_enough 4096%nat 32752).
  - arena_lia.
  - vm_compute. lia.
Defined.

(** The split of [mymalloc].  With [remaining] the footprint
    of the block [mymalloc] takes minus [META_SIZE] plus the rounded
    request: the block is taken only when [remaining >= META_SIZE]; it is
    split only when [remaining >= 2 * META_SIZE + 8], and then it keeps a
    size field of [META_SIZE] plus the rounded request, the new free block
    gets the size [remaining - META_SIZE] and ends [META_SIZE] bytes past
    the end of the block that was taken; below that threshold the block is
    kept whole.  On the formatted array, [mymalloc(32720)] leaves
    [remaining = 2 * META_SIZE] and does not split, and [mymalloc(16)]
    leaves the blocks [0; 48] whose footprints add up to
    [ARENA_BYTES + META_SIZE]. *)
Lemma split_counts_the_header_twice :
  (forall fuel size m p m',
     mymalloc fuel size m = Ret (p, None) m' ->
     exists o remaining,
       p = getPayload (Arr o) /\ is_free m o = true /\
       remaining = (META_SIZE + size_at m o) - (META_SIZE + ALIGNMENT size) /\
       META_SIZE <= remaining /\
       in_use_at m' o = IN_USE /\
       (2 * META_SIZE + 8 <= remaining ->
          size_at m' o = META_SIZE + ALIGNMENT size /\
          size_at m' (next_of m' o) = remaining - META_SIZE /\
          in_use_at m' (next_of m' o) = FREE /\
          next_of m' (next_of m' o) = next_of m o + META_SIZE) /\
       (remaining < 2 * META_SIZE + 8 ->
          size_at m' o = size_at m o /\
          forall a, a < o \/ o + 12 <= a -> byte_at m' a = byte_at m a)) /\
  (exists m',
     mymalloc 4096 32720 formatted_arena = Ret (getPayload (Arr 0), None) m' /\
     (META_SIZE + size_at formatted_arena 0) - (META_SIZE + ALIGNMENT 32720)
     = 2 * META_SIZE /\
     size_at m' 0 = size_at formatted_arena 0 /\ arena_blocks m' = [0]) /\
  (exists m',
     mymalloc 4096 16 formatted_arena = Ret (getPayload (Arr 0), None) m' /\
     size_at m' 0 = META_SIZE + ALIGNMENT 16 /\
     arena_blocks m' = [0; 48] /\
     footprint_sum m' = ARENA_BYTES + META_SIZE).
Proof.
  split; [|split].
  - intros fuel size m p m' H.
    apply mymalloc_effect in H
      as (o & r & _ & Hp & Hfree & Hr & Hpos & Hu & Hsplit & Hkeep).
    exists o, ((META_SIZE + size_at m o) - (META_SIZE + ALIGNMENT size)).
    assert (Hm : META_SIZE = 16) by reflexivity.
    split; [exact Hp|]. split; [exact Hfree|]. split; [reflexivity|].
    split; [lia|]. split; [exact Hu|]. split.
    + intros Hbig. destruct Hsplit as (H1 & H2 & H3 & _); [lia|].
      split; [exact H1|]. split; [rewrite H2; lia|]. split; [exact H3|].
      unfold next_of at 1. rewrite H2. unfold next_of. rewrite H1. lia.
    + intros Hsmall. apply Hkeep. lia.
  - eexists. split; [vm_compute; reflexivity|].
    split; [vm_compute; reflexivity|]. split; vm_compute; reflexivity.
  - eexists. split; [vm_compute; reflexivity|].
    split; [vm_compute; reflexivity|]. split; vm_compute; reflexivity.
Qed.

Lemma split_counts_the_header_twice_witness :
  exists m',
    mymalloc 8 16 formatted_arena = Ret (Arr 16, None) m' /\
    exists o remaining,
      Arr 16 = getPayload (Arr o) /\ is_free formatted_arena o = true /\
      remaining = (META_SIZE + size_at formatted_arena o) - (META_SIZE + ALIGNMENT 16) /\
      META_SIZE <= remaining /\
      in_use_at m' o = IN_USE /\
      (2 * META_SIZE + 8 <= remaining ->
         size_at m' o = META_SIZE + ALIGNMENT 16 /\
         size_at m' (next_of m' o) = remaining - META_SIZE /\
         in_use_at m' (next_of m' o) = FREE /\
         next_of m' (next_of m' o) = next_of formatted_arena o + META_SIZE) /\
      (remaining < 2 * META_SIZE + 8 ->
         size_at m' o = size_at formatted_arena o /\
         forall a, a < o \/ o + 12 <= a -> byte_at m' a = byte_at formatted_arena a).
Proof.
  eexists. split; [vm_compute; reflexivity|].
  apply (proj1 split_counts_the_header_twice 8%nat 16 formatted_arena (Arr 16)).
  vm_compute. reflexivity.
Defined.
